(** * The template tool of the Open Agent System (tools/template.py)

    A shallow embedding of the command-line tool: argument parsing,
    input validation, the content analysis ([process_file]) and the two
    renderers ([output_json], [output_text]), followed by the properties
    of the specification that were checked against it.

    Python values are modelled as follows: a [str] is the list of its
    code points, bytes are [Byte.byte], an [int] is a [Z], the result
    dictionary is an association list in insertion order.  The operating
    system is an explicit [world]: a file system, the encoder of the
    standard output, the module global [DEBUG] and the chronological
    trace of everything the process did.

    The library calls follow CPython 3.11: [argparse], [pathlib],
    [json], the UTF-8 codec and the [str] methods.  The error stream is
    taken to be open and to accept every line; a path stands for the one
    file it names; the status of the process is the one [main] hands to
    [sys.exit], or 1 when an exception leaves [main]. *)

From Stdlib Require Import String Ascii.
From Stdlib Require Import List ZArith NArith Bool Lia.
From Stdlib Require Decimal DecimalFacts DecimalPos DecimalN DecimalZ.
Import ListNotations.

(* ================================================================= *)
(** ** Python strings *)

Module Py.

Definition codepoint := N.

(** A Python [str]: the sequence of its code points. *)
Definition str := list codepoint.

(** ASCII literals. *)
Definition u (s : string) : str := map N_of_ascii (list_ascii_of_string s).
Arguments u s%_string.

Definition LF : codepoint := 10%N.
Definition CR : codepoint := 13%N.
Definition SPACE : codepoint := 32%N.
Definition QUOTE : codepoint := 34%N.
Definition MINUS : codepoint := 45%N.
Definition DOT : codepoint := 46%N.
Definition SLASH : codepoint := 47%N.
Definition COLON : codepoint := 58%N.
Definition EQUALS : codepoint := 61%N.
Definition BACKSLASH : codepoint := 92%N.

Definition cp_eqb (a b : codepoint) : bool := N.eqb a b.
Arguments cp_eqb : simpl never.

Fixpoint str_eqb (a b : str) : bool :=
  match a, b with
  | [], [] => true
  | x :: a', y :: b' => cp_eqb x y && str_eqb a' b'
  | _, _ => false
  end.

(** [a.startswith(p)] *)
Fixpoint startswith (a p : str) : bool :=
  match p, a with
  | [], _ => true
  | y :: p', x :: a' => cp_eqb x y && startswith a' p'
  | _ :: _, [] => false
  end.

(** [c in s] for a single character *)
Definition contains (c : codepoint) (s : str) : bool := existsb (cp_eqb c) s.

(** [sep.join(parts)] *)
Fixpoint join (sep : str) (parts : list str) : str :=
  match parts with
  | [] => []
  | [p] => p
  | p :: rest => p ++ sep ++ join sep rest
  end.

(** [s.split(sep)] for a one-character separator: every occurrence cuts,
    so [k] separators give [k + 1] parts. *)
Fixpoint split_on (sep : codepoint) (s : str) : list str :=
  match s with
  | [] => [[]]
  | c :: s' =>
      if cp_eqb c sep then [] :: split_on sep s'
      else match split_on sep s' with
           | p :: ps => (c :: p) :: ps
           | [] => [[c]]
           end
  end.

(** [str.isspace] on one code point (CPython's [_PyUnicode_IsWhitespace]). *)
Definition isspace (c : codepoint) : bool :=
  ((9 <=? c) && (c <=? 13) || (28 <=? c) && (c <=? 32)
   || (c =? 0x85) || (c =? 0xA0) || (c =? 0x1680)
   || (0x2000 <=? c) && (c <=? 0x200A)
   || (c =? 0x2028) || (c =? 0x2029) || (c =? 0x202F)
   || (c =? 0x205F) || (c =? 0x3000))%N.
Arguments isspace : simpl never.

(** The line boundaries of [str.splitlines]
    (CPython's [_PyUnicode_IsLinebreak]). *)
Definition islinebreak (c : codepoint) : bool :=
  ((10 <=? c) && (c <=? 13) || (28 <=? c) && (c <=? 30)
   || (c =? 0x85) || (c =? 0x2028) || (c =? 0x2029))%N.
Arguments islinebreak : simpl never.

(** [s.splitlines()]: scan to the next line boundary, emit the line
    without its terminator, step over the terminator reading CR LF as
    one.  The loop runs while characters remain, so a final terminator
    does not open another line.  [line] is the line being scanned, in
    reverse. *)
Fixpoint splitlines_from (line : str) (s : str) : list str :=
  match s with
  | [] => match line with [] => [] | _ => [rev line] end
  | c :: s' =>
      if islinebreak c then
        rev line ::
          (if cp_eqb c CR then
             match s' with
             | d :: s'' =>
                 if cp_eqb d LF then splitlines_from [] s''
                 else splitlines_from [] s'
             | [] => splitlines_from [] s'
             end
           else splitlines_from [] s')
      else splitlines_from (c :: line) s'
  end.

Definition splitlines (s : str) : list str := splitlines_from [] s.

(** [s.split()] with no separator: skip white space, then take the
    maximal run of other characters as a word.  [word] is the word being
    scanned, in reverse. *)
Fixpoint split_from (word : str) (s : str) : list str :=
  match s with
  | [] => match word with [] => [] | _ => [rev word] end
  | c :: s' =>
      if isspace c then
        match word with
        | [] => split_from [] s'
        | _ => rev word :: split_from [] s'
        end
      else split_from (c :: word) s'
  end.

Definition split (s : str) : list str := split_from [] s.

(** [len(s)] *)
Definition len {A} (l : list A) : Z := Z.of_nat (length l).

(** The decimal digits of Unicode 14 (category Nd), ten to a script and
    fifty among the mathematical alphanumerics: what [str.isdecimal] and
    the [\d] of a [str] pattern accept. *)
Definition decimal_digits : list (N * N) :=
  [(0x30, 0x39); (0x660, 0x669); (0x6F0, 0x6F9); (0x7C0, 0x7C9);
   (0x966, 0x96F); (0x9E6, 0x9EF); (0xA66, 0xA6F); (0xAE6, 0xAEF);
   (0xB66, 0xB6F); (0xBE6, 0xBEF); (0xC66, 0xC6F); (0xCE6, 0xCEF);
   (0xD66, 0xD6F); (0xDE6, 0xDEF); (0xE50, 0xE59); (0xED0, 0xED9);
   (0xF20, 0xF29); (0x1040, 0x1049); (0x1090, 0x1099); (0x17E0, 0x17E9);
   (0x1810, 0x1819); (0x1946, 0x194F); (0x19D0, 0x19D9); (0x1A80, 0x1A89);
   (0x1A90, 0x1A99); (0x1B50, 0x1B59); (0x1BB0, 0x1BB9); (0x1C40, 0x1C49);
   (0x1C50, 0x1C59); (0xA620, 0xA629); (0xA8D0, 0xA8D9); (0xA900, 0xA909);
   (0xA9D0, 0xA9D9); (0xA9F0, 0xA9F9); (0xAA50, 0xAA59); (0xABF0, 0xABF9);
   (0xFF10, 0xFF19); (0x104A0, 0x104A9); (0x10D30, 0x10D39);
   (0x11066, 0x1106F); (0x110F0, 0x110F9); (0x11136, 0x1113F);
   (0x111D0, 0x111D9); (0x112F0, 0x112F9); (0x11450, 0x11459);
   (0x114D0, 0x114D9); (0x11650, 0x11659); (0x116C0, 0x116C9);
   (0x11730, 0x11739); (0x118E0, 0x118E9); (0x11950, 0x11959);
   (0x11C50, 0x11C59); (0x11D50, 0x11D59); (0x11DA0, 0x11DA9);
   (0x16A60, 0x16A69); (0x16AC0, 0x16AC9); (0x16B50, 0x16B59);
   (0x1D7CE, 0x1D7FF); (0x1E140, 0x1E149); (0x1E2F0, 0x1E2F9);
   (0x1E950, 0x1E959); (0x1FBF0, 0x1FBF9)]%N.

Definition isdecimal (c : codepoint) : bool :=
  existsb (fun r => N.leb (fst r) c && N.leb c (snd r)) decimal_digits.

(** Decimal digits of a [Decimal.uint], most significant first. *)
Fixpoint uint_digits (d : Decimal.uint) : str :=
  match d with
  | Decimal.Nil => []
  | Decimal.D0 d => 48%N :: uint_digits d
  | Decimal.D1 d => 49%N :: uint_digits d
  | Decimal.D2 d => 50%N :: uint_digits d
  | Decimal.D3 d => 51%N :: uint_digits d
  | Decimal.D4 d => 52%N :: uint_digits d
  | Decimal.D5 d => 53%N :: uint_digits d
  | Decimal.D6 d => 54%N :: uint_digits d
  | Decimal.D7 d => 55%N :: uint_digits d
  | Decimal.D8 d => 56%N :: uint_digits d
  | Decimal.D9 d => 57%N :: uint_digits d
  end.

(** [sys.int_max_str_digits]: an [int] with more decimal digits has no
    text; [str], [repr] and [json.dumps] raise [ValueError] on it. *)
Definition int_max_str_digits : Z := 4300.

Definition within_str_digits (n : Z) : Prop :=
  (Z.abs n < 10 ^ int_max_str_digits)%Z.
Arguments within_str_digits : simpl never.

(** [str(n)] and [repr(n)] of an [int] within the limit. *)
Definition str_int (n : Z) : str :=
  match Z.to_int n with
  | Decimal.Pos d => uint_digits d
  | Decimal.Neg d => MINUS :: uint_digits d
  end.

(** The values stored in the result dictionary. *)
Inductive value :=
| VStr (s : str)
| VInt (n : Z).

(** [str(v)], as an f-string interpolates it. *)
Definition str_value (v : value) : str :=
  match v with
  | VStr s => s
  | VInt n => str_int n
  end.

(** The values that have a text. *)
Definition printable (v : value) : Prop :=
  match v with
  | VStr _ => True
  | VInt n => within_str_digits n
  end.

(** A [dict] with [str] keys, in insertion order. *)
Definition dict := list (str * value).

(** [d[k] = v]: replaces the value in place when the key is present,
    appends otherwise. *)
Fixpoint dict_set (d : dict) (k : str) (v : value) : dict :=
  match d with
  | [] => [(k, v)]
  | (k', v') :: d' =>
      if str_eqb k' k then (k', v) :: d' else (k', v') :: dict_set d' k v
  end.

End Py.

(* ================================================================= *)
(** ** Text input and output: the UTF-8 codec and newline translation *)

Module Utf8.
Import Py.
Local Open Scope N_scope.

Definition bytes := list Byte.byte.

(** [(b & 0xC0) == 0x80] *)
Definition is_continuation (b : N) : bool := (0x80 <=? b) && (b <? 0xC0).

Definition cons_ok {E} (c : codepoint) (r : E + str) : E + str :=
  match r with
  | inr s => inr (c :: s)
  | inl e => inl e
  end.

(** The strict [utf-8] decoder: shortest forms only, no surrogates,
    nothing above U+10FFFF.  An undecodable input gives the index of the
    first offending sequence. *)
Fixpoint decode_from (pos : nat) (bs : bytes) : nat + str :=
  match bs with
  | [] => inr []
  | b0 :: r0 =>
      let ch := Byte.to_N b0 in
      if ch <? 0x80 then cons_ok ch (decode_from (1 + pos) r0)
      else if ch <? 0xC2 then inl pos
      else if ch <? 0xE0 then
        match r0 with
        | b1 :: r1 =>
            let ch2 := Byte.to_N b1 in
            if is_continuation ch2 then
              cons_ok (N.shiftl ch 6 + ch2 - (N.shiftl 0xC0 6 + 0x80))
                      (decode_from (2 + pos) r1)
            else inl pos
        | _ => inl pos
        end
      else if ch <? 0xF0 then
        match r0 with
        | b1 :: b2 :: r2 =>
            let ch2 := Byte.to_N b1 in
            let ch3 := Byte.to_N b2 in
            if negb (is_continuation ch2)
               || (if ch2 <? 0xA0 then ch =? 0xE0 else ch =? 0xED)
            then inl pos
            else if negb (is_continuation ch3) then inl pos
            else
              cons_ok (N.shiftl ch 12 + N.shiftl ch2 6 + ch3
                       - (N.shiftl 0xE0 12 + N.shiftl 0x80 6 + 0x80))
                      (decode_from (3 + pos) r2)
        | _ => inl pos
        end
      else if ch <? 0xF5 then
        match r0 with
        | b1 :: b2 :: b3 :: r3 =>
            let ch2 := Byte.to_N b1 in
            let ch3 := Byte.to_N b2 in
            let ch4 := Byte.to_N b3 in
            if negb (is_continuation ch2)
               || (if ch2 <? 0x90 then ch =? 0xF0 else ch =? 0xF4)
            then inl pos
            else if negb (is_continuation ch3) then inl pos
            else if negb (is_continuation ch4) then inl pos
            else
              cons_ok (N.shiftl ch 18 + N.shiftl ch2 12 + N.shiftl ch3 6 + ch4
                       - (N.shiftl 0xF0 18 + N.shiftl 0x80 12
                          + N.shiftl 0x80 6 + 0x80))
                      (decode_from (4 + pos) r3)
        | _ => inl pos
        end
      else inl pos
  end.

(** [data.decode("utf-8")] *)
Definition decode (bs : bytes) : nat + str := decode_from 0 bs.

Definition byte_of (n : N) : Byte.byte :=
  match Byte.of_N n with
  | Some b => b
  | None => Byte.x00
  end.

Definition encode_codepoint (c : codepoint) : option bytes :=
  if c <? 0x80 then Some [byte_of c]
  else if c <? 0x800 then
    Some [byte_of (N.lor 0xC0 (N.shiftr c 6));
          byte_of (N.lor 0x80 (N.land c 0x3F))]
  else if c <? 0x10000 then
    if (0xD800 <=? c) && (c <=? 0xDFFF) then None
    else
      Some [byte_of (N.lor 0xE0 (N.shiftr c 12));
            byte_of (N.lor 0x80 (N.land (N.shiftr c 6) 0x3F));
            byte_of (N.lor 0x80 (N.land c 0x3F))]
  else if c <? 0x110000 then
    Some [byte_of (N.lor 0xF0 (N.shiftr c 18));
          byte_of (N.lor 0x80 (N.land (N.shiftr c 12) 0x3F));
          byte_of (N.lor 0x80 (N.land (N.shiftr c 6) 0x3F));
          byte_of (N.lor 0x80 (N.land c 0x3F))]
  else None.

(** [text.encode("utf-8")]; a lone surrogate cannot be encoded and gives
    its index. *)
Fixpoint encode_from (pos : nat) (s : str) : nat + bytes :=
  match s with
  | [] => inr []
  | c :: s' =>
      match encode_codepoint c with
      | None => inl pos
      | Some bs =>
          match encode_from (S pos) s' with
          | inr rest => inr (bs ++ rest)
          | inl e => inl e
          end
      end
  end.

Definition encode (s : str) : nat + bytes := encode_from 0 s.

(** Reading in text mode with the default [newline=None]: every CR LF
    pair and every lone CR arrives as one LF. *)
Fixpoint universal_newlines (s : str) : str :=
  match s with
  | [] => []
  | c :: s' =>
      if cp_eqb c CR then
        LF :: match s' with
              | d :: s'' =>
                  if cp_eqb d LF then universal_newlines s''
                  else universal_newlines s'
              | [] => universal_newlines s'
              end
      else c :: universal_newlines s'
  end.

End Utf8.

(* ================================================================= *)
(** ** The [json] module: [dumps(..., indent=2, ensure_ascii=False)] and
       [loads] on the documents it produces *)

Module Json.
Import Py.
Local Open Scope N_scope.

Definition hex_digit (n : N) : codepoint :=
  if n <? 10 then 48 + n else 87 + n.

(** ['\\u{0:04x}'.format(c)] *)
Definition u_escape (c : codepoint) : str :=
  [BACKSLASH; 117; hex_digit (c / 4096 mod 16); hex_digit (c / 256 mod 16);
   hex_digit (c / 16 mod 16); hex_digit (c mod 16)].

(** The replacement of one character by [encode_basestring]: the quote,
    the backslash and the control characters are escaped, every other
    character, ASCII or not, is copied. *)
Definition escape (c : codepoint) : str :=
  if c =? QUOTE then [BACKSLASH; QUOTE]
  else if c =? BACKSLASH then [BACKSLASH; BACKSLASH]
  else if c =? 10 then [BACKSLASH; 110]
  else if c =? 13 then [BACKSLASH; 114]
  else if c =? 9 then [BACKSLASH; 116]
  else if c =? 8 then [BACKSLASH; 98]
  else if c =? 12 then [BACKSLASH; 102]
  else if c <? 0x20 then u_escape c
  else [c].

Definition encode_basestring (s : str) : str :=
  QUOTE :: flat_map escape s ++ [QUOTE].

Definition encode_value (v : value) : str :=
  match v with
  | VStr s => encode_basestring s
  | VInt n => str_int n
  end.

Definition encode_item (kv : str * value) : str :=
  encode_basestring (fst kv) ++ u ": " ++ encode_value (snd kv).

(** [json.dumps(d, indent=2, ensure_ascii=False)] for a dictionary of
    strings and integers: one member per line at indent level one. *)
Definition dumps (d : dict) : str :=
  match d with
  | [] => u "{}"
  | _ =>
      let newline_indent := LF :: u "  " in
      let item_separator := u "," ++ newline_indent in
      u "{" ++ newline_indent
        ++ join item_separator (map encode_item d)
        ++ [LF] ++ u "}"
  end.

(** *** Decoding *)

Definition is_ws (c : codepoint) : bool :=
  (c =? 32) || (c =? 9) || (c =? 10) || (c =? 13).

Fixpoint skip_ws (s : str) : str :=
  match s with
  | c :: s' => if is_ws c then skip_ws s' else s
  | [] => []
  end.

Definition hex_value (c : codepoint) : option N :=
  if (48 <=? c) && (c <=? 57) then Some (c - 48)
  else if (97 <=? c) && (c <=? 102) then Some (c - 87)
  else if (65 <=? c) && (c <=? 70) then Some (c - 55)
  else None.

Definition hex4 (a b c d : codepoint) : option N :=
  match hex_value a, hex_value b, hex_value c, hex_value d with
  | Some w, Some x, Some y, Some z => Some (((w * 16 + x) * 16 + y) * 16 + z)
  | _, _, _, _ => None
  end.

Definition push (c : codepoint) (r : option (str * str)) : option (str * str) :=
  match r with
  | Some (s, rest) => Some (c :: s, rest)
  | None => None
  end.

(** The character a one-letter escape stands for. *)
Definition backslash (e : codepoint) : option codepoint :=
  if e =? QUOTE then Some QUOTE
  else if e =? BACKSLASH then Some BACKSLASH
  else if e =? SLASH then Some SLASH
  else if e =? 98 then Some 8
  else if e =? 102 then Some 12
  else if e =? 110 then Some 10
  else if e =? 114 then Some 13
  else if e =? 116 then Some 9
  else None.

(** [scanstring] in strict mode, entered after the opening quote: gives
    the decoded string and the text after the closing quote. *)
Fixpoint scanstring (s : str) : option (str * str) :=
  match s with
  | [] => None
  | c :: r =>
      if c =? QUOTE then Some ([], r)
      else if c =? BACKSLASH then
        match r with
        | [] => None
        | e :: r1 =>
            if e =? 117 then
              match r1 with
              | h1 :: h2 :: h3 :: h4 :: r2 =>
                  match hex4 h1 h2 h3 h4 with
                  | None => None
                  | Some uni =>
                      let single := push uni (scanstring r2) in
                      if (0xD800 <=? uni) && (uni <=? 0xDBFF) then
                        match r2 with
                        | b :: w :: t =>
                            if (b =? BACKSLASH) && (w =? 117) then
                              match t with
                              | l1 :: l2 :: l3 :: l4 :: r3 =>
                                  match hex4 l1 l2 l3 l4 with
                                  | None => None
                                  | Some uni2 =>
                                      if (0xDC00 <=? uni2) && (uni2 <=? 0xDFFF)
                                      then
                                        push (0x10000
                                              + N.lor (N.shiftl (uni - 0xD800) 10)
                                                      (uni2 - 0xDC00))
                                             (scanstring r3)
                                      else single
                                  end
                              | _ => None
                              end
                            else single
                        | _ => single
                        end
                      else single
                  end
              | _ => None
              end
            else
              match backslash e with
              | Some ch => push ch (scanstring r1)
              | None => None
              end
        end
      else if c <? 0x20 then None
      else push c (scanstring r)
  end.

Definition is_digit (c : codepoint) : bool := (48 <=? c) && (c <=? 57).

Definition digit_cons (c : codepoint) (d : Decimal.uint) : Decimal.uint :=
  if c =? 48 then Decimal.D0 d
  else if c =? 49 then Decimal.D1 d
  else if c =? 50 then Decimal.D2 d
  else if c =? 51 then Decimal.D3 d
  else if c =? 52 then Decimal.D4 d
  else if c =? 53 then Decimal.D5 d
  else if c =? 54 then Decimal.D6 d
  else if c =? 55 then Decimal.D7 d
  else if c =? 56 then Decimal.D8 d
  else Decimal.D9 d.

(** The longest prefix of decimal digits. *)
Fixpoint scan_digits (s : str) : Decimal.uint * str :=
  match s with
  | c :: s' =>
      if is_digit c then
        let (d, r) := scan_digits s' in (digit_cons c d, r)
      else (Decimal.Nil, s)
  | [] => (Decimal.Nil, [])
  end.

(** The integer part of a JSON number is [0] or starts with a non-zero
    digit. *)
Definition well_formed_int (d : Decimal.uint) : bool :=
  match d with
  | Decimal.Nil => false
  | Decimal.D0 Decimal.Nil => true
  | Decimal.D0 _ => false
  | _ => true
  end.

Definition scan_int (s : str) : option (Z * str) :=
  match s with
  | c :: s' =>
      if c =? MINUS then
        let (d, r) := scan_digits s' in
        if well_formed_int d then Some (Z.of_int (Decimal.Neg d), r) else None
      else
        let (d, r) := scan_digits s in
        if well_formed_int d then Some (Z.of_int (Decimal.Pos d), r) else None
  | [] => None
  end.

(** The text continues with something that is not a digit, so that a
    numeral ends there. *)
Definition no_digit_ahead (s : str) : Prop :=
  match s with
  | c :: _ => is_digit c = false
  | [] => True
  end.

(** A member's value: a string or an integer.  Arrays, nested objects,
    fractions and the literals are never produced by the renderer and
    are outside this decoder. *)
Definition scan_value (s : str) : option (value * str) :=
  match s with
  | c :: s' =>
      if c =? QUOTE then
        match scanstring s' with
        | Some (v, r) => Some (VStr v, r)
        | None => None
        end
      else
        match scan_int s with
        | Some (n, r) => Some (VInt n, r)
        | None => None
        end
  | [] => None
  end.

(** The members of an object, entered at the opening quote of a key;
    stops after the closing brace.  Each round consumes at least one
    character, [fuel] bounds the rounds. *)
Fixpoint scan_members (fuel : nat) (s : str) (acc : dict) : option (dict * str) :=
  match fuel with
  | O => None
  | S fuel' =>
      match s with
      | q :: s1 =>
          if negb (q =? QUOTE) then None
          else
            match scanstring s1 with
            | None => None
            | Some (key, s2) =>
                match skip_ws s2 with
                | col :: s3 =>
                    if negb (col =? COLON) then None
                    else
                      match scan_value (skip_ws s3) with
                      | None => None
                      | Some (v, s4) =>
                          let acc' := dict_set acc key v in
                          match skip_ws s4 with
                          | d :: s5 =>
                              if d =? 125 then Some (acc', s5)
                              else if d =? 44 then
                                scan_members fuel' (skip_ws s5) acc'
                              else None
                          | [] => None
                          end
                      end
                | [] => None
                end
            end
      | [] => None
      end
  end.

(** [json.loads(text)] for a document that is one object of strings and
    integers. *)
Definition loads (text : str) : option dict :=
  match skip_ws text with
  | c :: s1 =>
      if negb (c =? 123) then None
      else
        let obj :=
          match skip_ws s1 with
          | c2 :: s2 =>
              if c2 =? 125 then Some ([], s2)
              else scan_members (length text) (skip_ws s1) []
          | [] => None
          end in
        match obj with
        | Some (d, rest) =>
            match skip_ws rest with
            | [] => Some d
            | _ :: _ => None
            end
        | None => None
        end
  | [] => None
  end.

End Json.

(* ================================================================= *)
(** ** The process environment: paths, files, exceptions, the trace *)

Module Os.
Import Py.

(** A [pathlib.Path] on POSIX, identified with its textual form
    [str(path)]: repeated slashes and [.] components are collapsed, a
    leading [//] is kept, the empty path is [.]. *)
Record Path := PosixPath { path_str : str }.

Definition path_root (s : str) : str :=
  if startswith s (u "//") && negb (startswith s (u "///")) then u "//"
  else if startswith s (u "/") then u "/"
  else [].

Definition path_parts (s : str) : list str :=
  filter (fun x => negb (str_eqb x []) && negb (str_eqb x (u ".")))
         (split_on SLASH s).

(** [Path(s)] *)
Definition mkPath (s : str) : Path :=
  match path_root s ++ join (u "/") (path_parts s) with
  | [] => PosixPath (u ".")
  | t => PosixPath t
  end.

Definition Path_eqb (p q : Path) : bool := str_eqb (path_str p) (path_str q).

(** Why a system call on a path fails with an error that [pathlib] does
    not take for "nothing there" (it takes ENOENT, ENOTDIR, EBADF and
    ELOOP so). *)
Inductive stat_failure :=
| NameTooLong
    (* ENAMETOOLONG: a component longer than the file system allows;
       no file can have this name *)
| SearchDenied.
    (* EACCES: a directory on the way may not be searched *)

(** What the file system holds at a path, as [stat] and [open] find it. *)
Inductive node :=
| Absent (creatable : bool)
    (* [stat] reports that nothing is there; [creatable] when the
       directory above accepts a new file *)
| Directory
| Special (data : Utf8.bytes) (accepts : bool)
    (* a device or pipe: yields [data], accepts or refuses writes *)
| Regular (data : Utf8.bytes) (readable writable : bool)
| Unreachable (why : stat_failure).
    (* every system call on the path fails *)

(** Whether a file can be at the path at all. *)
Definition nothing_there (n : node) : bool :=
  match n with
  | Absent _ | Unreachable NameTooLong => true
  | _ => false
  end.

(** The file system gives each path what it names.  Two spellings of
    one file (links, [..] components) are two paths here, each with its
    own content: what a write does to the other names of a file is not
    described. *)
Definition filesystem := Path -> node.

Definition fs_update (fs : filesystem) (p : Path) (n : node) : filesystem :=
  fun q => if Path_eqb q p then n else fs q.

(** The exceptions the run can meet; all derive from [Exception]. *)
Inductive exn :=
| FileNotFoundError (p : Path)
| IsADirectoryError (p : Path)
| PermissionError (p : Path)
| UnicodeDecodeError (start : nat)
| UnicodeEncodeError (start : nat)
| OSError (errno : Z) (p : Path).

(** The exception of a system call on an unreachable path. *)
Definition stat_error (why : stat_failure) (p : Path) : exn :=
  match why with
  | NameTooLong => OSError 36 p
  | SearchDenied => PermissionError p
  end.

(** The pieces of an f-string: literal text and interpolated values. *)
Inductive frag :=
| Lit (s : string)
| OfPath (p : Path)
| OfExn (e : exn)
| OfDict (d : dict).

Inductive level := LDEBUG | LINFO | LERROR.

(** Why [argparse] rejected the command line. *)
Inductive arg_error :=
| InvalidChoice (v : str)
| ExpectedOneArgument
| IgnoredExplicitArgument
| AmbiguousOption (arg : str)
| RequiredArgument
| UnrecognizedArguments (extras : list str).

(** Everything observable the process does, in order. *)
Inductive event :=
| Stderr (lvl : level) (message : list frag)  (* a [[LEVEL] message] line *)
| Traceback (e : exn)                         (* the trace of [e] on stderr *)
| Usage (err : arg_error)                     (* usage and error on stderr *)
| HelpText                                    (* the help text on stdout *)
| Stdout (text : str)                         (* [print(text)] *)
| Exists (p : Path)
| IsFile (p : Path)
| ReadText (p : Path)
| WriteText (p : Path) (text : str).

Record world := World {
  fs : filesystem;
  stdout_codec : str -> nat + Utf8.bytes;
    (* the encoder of [sys.stdout] with its error handler: the bytes of
       a text, or the index of the character it refuses *)
  DEBUG : bool;
  trace : list event
}.

Inductive result (A : Type) :=
| Return (a : A)
| Raise (e : exn).
Arguments Return {A} a.
Arguments Raise {A} e.

(** Computations that read and change the world and may raise. *)
Definition M (A : Type) := world -> world * result A.

Definition ret {A} (a : A) : M A := fun w => (w, Return a).

Definition raise {A} (e : exn) : M A := fun w => (w, Raise e).

Definition bind {A B} (c : M A) (k : A -> M B) : M B :=
  fun w =>
    match c w with
    | (w', Return a) => k a w'
    | (w', Raise e) => (w', Raise e)
    end.

(** [try: body except Exception as e: handler(e)] *)
Definition try_except {A} (body : M A) (handler : exn -> M A) : M A :=
  fun w =>
    match body w with
    | (w', Return a) => (w', Return a)
    | (w', Raise e) => handler e w'
    end.

Definition emit (e : event) : M unit :=
  fun w => (World (fs w) (stdout_codec w) (DEBUG w) (trace w ++ [e]), Return tt).

Definition get_DEBUG : M bool := fun w => (w, Return (DEBUG w)).

Definition set_DEBUG (b : bool) : M unit :=
  fun w => (World (fs w) (stdout_codec w) b (trace w), Return tt).

Definition get_node (p : Path) : M node := fun w => (w, Return (fs w p)).

Definition put_node (p : Path) (n : node) : M unit :=
  fun w =>
    (World (fs_update (fs w) p n) (stdout_codec w) (DEBUG w) (trace w),
     Return tt).

Declare Scope os_scope.
Delimit Scope os_scope with os.
Notation "x <- c1 ;; c2" := (bind c1 (fun x => c2))
  (at level 61, c1 at next level, right associativity) : os_scope.
Notation "c1 ;; c2" := (bind c1 (fun _ => c2))
  (at level 61, right associativity) : os_scope.
Local Open Scope os_scope.

(** [p.exists()]: [stat] the path; an error that says nothing is there
    gives [False], any other [OSError] is raised again. *)
Definition exists_ (p : Path) : M bool :=
  emit (Exists p) ;;
  n <- get_node p ;;
  match n with
  | Absent _ => ret false
  | Unreachable why => raise (stat_error why p)
  | _ => ret true
  end.

(** [p.is_file()]: [stat] the path and test for a regular file, with the
    errors treated as in [exists]. *)
Definition is_file (p : Path) : M bool :=
  emit (IsFile p) ;;
  n <- get_node p ;;
  match n with
  | Regular _ _ _ => ret true
  | Unreachable why => raise (stat_error why p)
  | _ => ret false
  end.

Definition decode_text (data : Utf8.bytes) : M str :=
  match Utf8.decode data with
  | inr s => ret (Utf8.universal_newlines s)
  | inl pos => raise (UnicodeDecodeError pos)
  end.

(** [p.read_text(encoding="utf-8")]: open, read everything, decode,
    translate the newlines. *)
Definition read_text (p : Path) : M str :=
  emit (ReadText p) ;;
  n <- get_node p ;;
  match n with
  | Absent _ => raise (FileNotFoundError p)
  | Directory => raise (IsADirectoryError p)
  | Special data _ => decode_text data
  | Regular data readable _ =>
      if readable then decode_text data else raise (PermissionError p)
  | Unreachable why => raise (stat_error why p)
  end.

(** [p.write_text(text, encoding="utf-8")]: opening for writing creates
    or empties the file; the text is encoded when it is written. *)
Definition write_text (p : Path) (text : str) : M unit :=
  emit (WriteText p text) ;;
  n <- get_node p ;;
  match n with
  | Directory => raise (IsADirectoryError p)
  | Absent false => raise (FileNotFoundError p)
  | Special _ false => raise (PermissionError p)
  | Regular _ _ false => raise (PermissionError p)
  | Special _ true =>
      match Utf8.encode text with
      | inr _ => ret tt
      | inl pos => raise (UnicodeEncodeError pos)
      end
  | Absent true =>
      match Utf8.encode text with
      | inr data => put_node p (Regular data true true)
      | inl pos => put_node p (Regular [] true true) ;;
                   raise (UnicodeEncodeError pos)
      end
  | Regular _ readable true =>
      match Utf8.encode text with
      | inr data => put_node p (Regular data readable true)
      | inl pos => put_node p (Regular [] readable true) ;;
                   raise (UnicodeEncodeError pos)
      end
  | Unreachable why => raise (stat_error why p)
  end.

(** The exception [read_text] meets on a regular file, if any: the file
    cannot be opened, or its bytes are not UTF-8. *)
Definition read_error (p : Path) (data : Utf8.bytes) (readable : bool)
  : option exn :=
  if readable then
    match Utf8.decode data with
    | inl pos => Some (UnicodeDecodeError pos)
    | inr _ => None
    end
  else Some (PermissionError p).

Definition get_stdout_codec : M (str -> nat + Utf8.bytes) :=
  fun w => (w, Return (stdout_codec w)).

(** [print(text)]: the text is encoded for the stream, then written
    with the line end. *)
Definition print (text : str) : M unit :=
  codec <- get_stdout_codec ;;
  match codec text with
  | inr _ => emit (Stdout text)
  | inl pos => raise (UnicodeEncodeError pos)
  end.

(** [traceback.print_exc()] inside the handler of [e] *)
Definition print_exc (e : exn) : M unit := emit (Traceback e).

End Os.

(* ================================================================= *)
(** ** The argument parser that [main] builds *)

Module Argparse.
Import Py Os.

(** The result of [parser.parse_args()]. *)
Record Namespace := {
  input_file : Path;
  output : option Path;
  format : str;
  verbose : bool
}.

Inductive action := HelpAction | StoreOutput | StoreFormat | StoreTrueVerbose.

(** The option strings, in the order they were registered. *)
Definition option_string_actions : list (str * action) :=
  [(u "-h", HelpAction); (u "--help", HelpAction);
   (u "--output", StoreOutput); (u "-o", StoreOutput);
   (u "--format", StoreFormat); (u "-f", StoreFormat);
   (u "--verbose", StoreTrueVerbose); (u "-v", StoreTrueVerbose)].

(** [choices=["json", "text"]] *)
Definition choices : list str := [u "json"; u "text"].

Definition takes_value (a : action) : bool :=
  match a with
  | StoreOutput | StoreFormat => true
  | HelpAction | StoreTrueVerbose => false
  end.

Fixpoint lookup (tbl : list (str * action)) (s : str) : option action :=
  match tbl with
  | [] => None
  | (os, a) :: tbl' => if str_eqb os s then Some a else lookup tbl' s
  end.

Definition find_action (s : str) : option action :=
  lookup option_string_actions s.

(** [s.split('=', 1)] when [s] contains an equals sign. *)
Fixpoint partition_eq (s : str) : option (str * str) :=
  match s with
  | [] => None
  | c :: s' =>
      if cp_eqb c EQUALS then Some ([], s')
      else match partition_eq s' with
           | Some (a, b) => Some (c :: a, b)
           | None => None
           end
  end.

(** An option string with one dash: its second character is not a dash. *)
Definition is_short (os : str) : bool :=
  match os with
  | _ :: c1 :: _ => negb (cp_eqb c1 MINUS)
  | _ => false
  end.

(** How an argument string is read: as a positional ([ClassA]), as the
    first [--] ([ClassDashes]), as an occurrence of a registered option
    with the text attached to it, if any, as an option nobody
    registered, or as an abbreviation of several options. *)
Inductive arg_class :=
| ClassA
| ClassDashes
| ClassO (act : action) (short : bool) (explicit : option str)
| ClassUnknown
| ClassAmbiguous.

Fixpoint drop_digits (s : str) : str :=
  match s with
  | c :: s' => if isdecimal c then drop_digits s' else s
  | [] => []
  end.

(** [s] without one final line feed: the [$] of a pattern also matches
    just before it. *)
Definition before_final_newline (s : str) : str :=
  match rev s with
  | c :: r => if cp_eqb c LF then rev r else s
  | [] => []
  end.

(** The pattern [^-\d+$|^-\d*\.\d+$] of the parser, matched on a [str]:
    [\d] is any decimal digit of Unicode. *)
Definition negative_number_like (s : str) : bool :=
  match before_final_newline s with
  | c :: t =>
      cp_eqb c MINUS &&
      match drop_digits t with
      | [] => match t with [] => false | _ => true end
      | d :: t' =>
          cp_eqb d DOT && forallb isdecimal t' &&
          match t' with [] => false | _ => true end
      end
  | [] => false
  end.

(** The registered options an unregistered string may stand for: the
    long options it abbreviates, or the short option it starts with,
    the remainder being text attached to it. *)
Definition get_option_tuples (arg : str) : list arg_class :=
  match arg with
  | _ :: c1 :: tail =>
      if cp_eqb c1 MINUS then
        let (prefix, explicit) :=
          match partition_eq arg with
          | Some (p, e) => (p, Some e)
          | None => (arg, None)
          end in
        map (fun osa => ClassO (snd osa) false explicit)
            (filter (fun osa => startswith (fst osa) prefix)
                    option_string_actions)
      else
        flat_map
          (fun osa =>
             if str_eqb (fst osa) [MINUS; c1]
             then [ClassO (snd osa) true (Some tail)]
             else if startswith (fst osa) arg
             then [ClassO (snd osa) (is_short (fst osa)) None]
             else [])
          option_string_actions
  | _ => []
  end.

Definition parse_optional (arg : str) : arg_class :=
  match arg with
  | [] => ClassA
  | c0 :: rest =>
      if negb (cp_eqb c0 MINUS) then ClassA
      else
        match find_action arg with
        | Some act => ClassO act (is_short arg) None
        | None =>
            match rest with
            | [] => ClassA
            | _ :: _ =>
                let by_equals :=
                  match partition_eq arg with
                  | Some (os, e) =>
                      match find_action os with
                      | Some act => Some (ClassO act (is_short os) (Some e))
                      | None => None
                      end
                  | None => None
                  end in
                match by_equals with
                | Some cls => cls
                | None =>
                    match get_option_tuples arg with
                    | _ :: _ :: _ => ClassAmbiguous
                    | [cls] => cls
                    | [] =>
                        if negative_number_like arg then ClassA
                        else if contains SPACE arg then ClassA
                        else ClassUnknown
                    end
                end
            end
        end
  end.

(** Everything after the first [--] is positional; the [--] itself is
    neither an option nor an argument. *)
Fixpoint classify_args (args : list str) : list (str * arg_class) :=
  match args with
  | [] => []
  | a :: rest =>
      if str_eqb a (u "--")
      then (a, ClassDashes) :: map (fun x => (x, ClassA)) rest
      else (a, parse_optional a) :: classify_args rest
  end.

(** A flag named with one dash and followed by more text opens a group
    of one-letter options, [-vf json] or [-vfjson]: the first character
    of the text names the next option and the rest, if any, stays
    attached to that one. *)
Fixpoint group (act : action) (explicit : str)
  : option (list (action * option str)) :=
  match explicit with
  | [] => None
  | c :: more =>
      match find_action [MINUS; c] with
      | None => None
      | Some act' =>
          match more with
          | [] => Some [(act, None); (act', None)]
          | _ :: _ =>
              if takes_value act'
              then Some [(act, None); (act', Some more)]
              else option_map (cons (act, None)) (group act' more)
          end
      end
  end.

(** The actions one option occurrence stands for, each with the argument
    attached to it; [None] when attached text cannot be used. *)
Definition resolve (act : action) (short : bool) (explicit : option str)
  : option (list (action * option str)) :=
  match explicit with
  | None => Some [(act, None)]
  | Some text =>
      if takes_value act then Some [(act, Some text)]
      else if short then group act text
      else None
  end.

(** Does the last action of the group still wait for its argument? *)
Fixpoint needs_argument (acts : list (action * option str)) : bool :=
  match acts with
  | [] => false
  | [(a, None)] => takes_value a
  | [(_, Some _)] => false
  | _ :: acts' => needs_argument acts'
  end.

Record partial := {
  p_input : option Path;
  p_output : option Path;
  p_format : str;
  p_verbose : bool;
  p_extras : list str
}.

(** The defaults of the optional arguments. *)
Definition defaults : partial :=
  {| p_input := None; p_output := None; p_format := u "json";
     p_verbose := false; p_extras := [] |}.

Inductive parse_result :=
| Parsed (args : Namespace)
| ExitHelp
| ExitError (err : arg_error).

Definition take_action (act : action) (arg : str) (st : partial)
  : partial + parse_result :=
  match act with
  | HelpAction => inr ExitHelp
  | StoreTrueVerbose =>
      inl {| p_input := p_input st; p_output := p_output st;
             p_format := p_format st; p_verbose := true;
             p_extras := p_extras st |}
  | StoreOutput =>
      inl {| p_input := p_input st; p_output := Some (mkPath arg);
             p_format := p_format st; p_verbose := p_verbose st;
             p_extras := p_extras st |}
  | StoreFormat =>
      if existsb (str_eqb arg) choices then
        inl {| p_input := p_input st; p_output := p_output st;
               p_format := arg; p_verbose := p_verbose st;
               p_extras := p_extras st |}
      else inr (ExitError (InvalidChoice arg))
  end.

(** Runs the actions of a group in order; [next] is the command-line
    argument taken by an action that has none attached. *)
Fixpoint take_actions (acts : list (action * option str)) (next : str)
    (st : partial) : partial + parse_result :=
  match acts with
  | [] => inl st
  | (a, arg) :: acts' =>
      match take_action a (match arg with Some v => v | None => next end) st with
      | inl st' => take_actions acts' next st'
      | inr r => inr r
      end
  end.

Definition positional (a : str) (st : partial) : partial :=
  match p_input st with
  | None =>
      {| p_input := Some (mkPath a); p_output := p_output st;
         p_format := p_format st; p_verbose := p_verbose st;
         p_extras := p_extras st |}
  | Some _ =>
      {| p_input := p_input st; p_output := p_output st;
         p_format := p_format st; p_verbose := p_verbose st;
         p_extras := p_extras st ++ [a] |}
  end.

Definition extra (a : str) (st : partial) : partial :=
  {| p_input := p_input st; p_output := p_output st;
     p_format := p_format st; p_verbose := p_verbose st;
     p_extras := p_extras st ++ [a] |}.

(** After the last argument: the positional is required, and nothing
    may be left over. *)
Definition finish (st : partial) : parse_result :=
  match p_input st with
  | None => ExitError RequiredArgument
  | Some p =>
      match p_extras st with
      | [] => Parsed {| input_file := p; output := p_output st;
                        format := p_format st; verbose := p_verbose st |}
      | extras => ExitError (UnrecognizedArguments extras)
      end
  end.

(** Left to right over the classified arguments.  An option's value is
    checked, and the help action exits, when the option is reached.  An
    option takes its value from the next argument only if that one is
    positional; the positional takes a [--] next to it along, and a [--]
    that no positional takes is left over. *)
Fixpoint consume (toks : list (str * arg_class)) (st : partial) : parse_result :=
  match toks with
  | [] => finish st
  | (a, cls) :: rest =>
      match cls with
      | ClassA =>
          match p_input st, rest with
          | None, (_, ClassDashes) :: rest' => consume rest' (positional a st)
          | _, _ => consume rest (positional a st)
          end
      | ClassDashes =>
          match p_input st, rest with
          | None, (v, ClassA) :: rest' => consume rest' (positional v st)
          | _, _ => consume rest (extra a st)
          end
      | ClassUnknown => consume rest (extra a st)
      | ClassAmbiguous => ExitError (AmbiguousOption a)
      | ClassO act short explicit =>
          match resolve act short explicit with
          | None => ExitError IgnoredExplicitArgument
          | Some acts =>
              if needs_argument acts then
                match rest with
                | (v, ClassA) :: rest' =>
                    match take_actions acts v st with
                    | inl st' => consume rest' st'
                    | inr r => r
                    end
                | _ => ExitError ExpectedOneArgument
                end
              else
                match take_actions acts [] st with
                | inl st' => consume rest st'
                | inr r => r
                end
          end
      end
  end.

Definition ambiguous (tok : str * arg_class) : bool :=
  match snd tok with
  | ClassAmbiguous => true
  | _ => false
  end.

(** [parser.parse_args()] on [sys.argv[1:]]. *)
Definition parse_args (argv : list str) : parse_result :=
  let toks := classify_args argv in
  match find ambiguous toks with
  | Some (a, _) => ExitError (AmbiguousOption a)
  | None => consume toks defaults
  end.

End Argparse.

(* ================================================================= *)
(** ** tools/template.py *)

Module Template.
Import Py Os Argparse.
Local Open Scope os_scope.

(** [DEBUG = os.environ.get("OPEN_AGENT_DEBUG", "0") == "1"], evaluated
    when the module is loaded. *)
Definition initial_DEBUG (environ : str -> option str) : bool :=
  str_eqb (match environ (u "OPEN_AGENT_DEBUG") with
           | Some v => v
           | None => u "0"
           end)
          (u "1").

Definition log_debug (message : list frag) : M unit :=
  d <- get_DEBUG ;;
  if d then emit (Stderr LDEBUG message) else ret tt.

Definition log_error (message : list frag) : M unit :=
  emit (Stderr LERROR message).

Definition log_info (message : list frag) : M unit :=
  emit (Stderr LINFO message).

Definition output_json (data : dict) : str := Json.dumps data.

Definition output_text (data : dict) : str :=
  let lines :=
    fold_left (fun lines kv => lines ++ [fst kv ++ u ": " ++ str_value (snd kv)])
              data [] in
  join [LF] lines.

Definition process_file (input_path : Path) : M dict :=
  log_debug [Lit "Processing file: "; OfPath input_path] ;;
  content <- read_text input_path ;;
  let lines := splitlines content in
  let words := split content in
  let result :=
    [(u "file", VStr (path_str input_path));
     (u "lines", VInt (len lines));
     (u "words", VInt (len words));
     (u "characters", VInt (len content));
     (u "encoding", VStr (u "utf-8"));
     (u "status", VStr (u "success"))] in
  log_debug [Lit "Processing complete: "; OfDict result] ;;
  ret result.

(** The text [main] renders for a result under [--format]. *)
Definition render (fmt : str) (result : dict) : str :=
  if str_eqb fmt (u "json") then output_json result else output_text result.
Arguments render : simpl never.

(** The body of [main] once the arguments are parsed. *)
Definition run (args : Namespace) : M Z :=
  (if verbose args then set_DEBUG true else ret tt) ;;
  found <- exists_ (input_file args) ;;
  if negb found then
    log_error [Lit "Input file not found: "; OfPath (input_file args)] ;;
    ret 2%Z
  else
    regular <- is_file (input_file args) ;;
    if negb regular then
      log_error [Lit "Not a file: "; OfPath (input_file args)] ;;
      ret 1%Z
    else
      log_info [Lit "Processing "; OfPath (input_file args); Lit "..."] ;;
      try_except
        (result <- process_file (input_file args) ;;
         let output_ :=
           if str_eqb (format args) (u "json") then output_json result
           else output_text result in
         match output args with
         | Some p =>
             write_text p output_ ;;
             log_info [Lit "Output written to "; OfPath p]
         | None => print output_
         end ;;
         ret 0%Z)
        (fun e =>
           log_error [Lit "Processing error: "; OfExn e] ;;
           d <- get_DEBUG ;;
           (if d then print_exc e else ret tt) ;;
           ret 3%Z).

(** [sys.exit(main())]: the final world and the status the process is
    asked to end with.  The parser exits by itself, with status 0 after
    printing the help and with status 2 after reporting an error; an
    exception leaving [main] ends the interpreter with its trace on
    the error stream and status 1.  What the interpreter does after
    [sys.exit] is called (flushing the streams) is not described. *)
Definition main (argv : list str) (w : world) : world * Z :=
  match parse_args argv with
  | ExitHelp => (fst (emit HelpText w), 0%Z)
  | ExitError err => (fst (emit (Usage err) w), 2%Z)
  | Parsed args =>
      match run args w with
      | (w', Return code) => (w', code)
      | (w', Raise e) => (fst (emit (Traceback e) w'), 1%Z)
      end
  end.

(** One invocation of the tool: the command line after the program
    name, the environment, the files and the encoder of the standard
    output. *)
Record invocation := {
  argv : list str;
  environ : str -> option str;
  files : filesystem;
  console : str -> nat + Utf8.bytes
}.

Definition start (inv : invocation) : world :=
  World (files inv) (console inv) (initial_DEBUG (environ inv)) [].

Definition execute (inv : invocation) : world * Z :=
  main (argv inv) (start inv).

Definition exit_code (inv : invocation) : Z := snd (execute inv).

Definition final_trace (inv : invocation) : list event :=
  trace (fst (execute inv)).

(** The record behind the result dictionary. *)
Record AnalysisResult := {
  file : str;
  lines : nat;
  words : nat;
  characters : nat
}.

(** The dictionary of an [AnalysisResult]: its four fields and the two
    constants, in the order [process_file] inserts them. *)
Definition as_dict (r : AnalysisResult) : dict :=
  [(u "file", VStr (file r));
   (u "lines", VInt (Z.of_nat (lines r)));
   (u "words", VInt (Z.of_nat (words r)));
   (u "characters", VInt (Z.of_nat (characters r)));
   (u "encoding", VStr (u "utf-8"));
   (u "status", VStr (u "success"))].

(** The counts [process_file] takes from the text it has read. *)
Definition analyze (name : str) (content : str) : AnalysisResult :=
  {| file := name;
     lines := length (splitlines content);
     words := length (split content);
     characters := length content |}.

End Template.

(* ================================================================= *)
(** ** The counts as the specification words them *)

Module Spec.
Import Py.

(** Cutting a text at every separator: [k] separators leave [k + 1]
    segments, some possibly empty.  A CR immediately followed by LF is
    one separator when CR is a separator at all. *)
Fixpoint newline_pieces (sep : codepoint -> bool) (s : str) : list str :=
  match s with
  | [] => [[]]
  | c :: s' =>
      if sep c then
        [] :: (if cp_eqb c CR then
                 match s' with
                 | d :: s'' =>
                     if cp_eqb d LF then newline_pieces sep s''
                     else newline_pieces sep s'
                 | [] => newline_pieces sep s'
                 end
               else newline_pieces sep s')
      else
        match newline_pieces sep s' with
        | p :: ps => (c :: p) :: ps
        | [] => [[c]]
        end
  end.

(** No trailing empty segment: the empty piece after a final separator,
    or the only piece of an empty text, is not a segment. *)
Fixpoint drop_final_empty (ps : list str) : list str :=
  match ps with
  | [] => []
  | [[]] => []
  | p :: ps' => p :: drop_final_empty ps'
  end.
Arguments drop_final_empty : simpl never.

Definition newline_segments (sep : codepoint -> bool) (s : str) : list str :=
  drop_final_empty (newline_pieces sep s).

(** The separators the specification lists: LF, CR LF and CR. *)
Definition listed_newline (c : codepoint) : bool := cp_eqb c LF || cp_eqb c CR.

Definition nonempty (s : str) : bool :=
  match s with
  | [] => false
  | _ :: _ => true
  end.

(** A generic white-space split: cut at every white-space character and
    keep the tokens that are not empty. *)
Definition whitespace_tokens (s : str) : list str :=
  filter nonempty
         (fold_right
            (fun c ps =>
               if isspace c then [] :: ps
               else match ps with
                    | p :: ps' => (c :: p) :: ps'
                    | [] => [[c]]
                    end)
            [[]] s).

(** The number of CR LF pairs in a text. *)
Fixpoint crlf_pairs (s : str) : nat :=
  match s with
  | [] => 0
  | c :: s' =>
      (if cp_eqb c CR && match s' with d :: _ => cp_eqb d LF | [] => false end
       then 1 else 0) + crlf_pairs s'
  end.

(** A Unicode scalar value: a code point that is not a surrogate. *)
Definition scalar_value (c : codepoint) : Prop :=
  (c < 0xD800 \/ 0xDFFF < c /\ c <= 0x10FFFF)%N.

(** The number of lines of a rendered text: one more than the number of
    its LF characters. *)
Definition text_lines (s : str) : nat := length (split_on LF s).

End Spec.

(* ================================================================= *)
(** ** Sample inputs *)

Module Sample.
Import Py Os Argparse Template.

(** The bytes of ["a b\ncd\n"]. *)
Definition a_b_cd : Utf8.bytes :=
  [Byte.x61; Byte.x20; Byte.x62; Byte.x0a; Byte.x63; Byte.x64; Byte.x0a].

(** The bytes of ["a\r\nb\x0cc"]: a CR LF pair and a form feed. *)
Definition crlf_formfeed : Utf8.bytes :=
  [Byte.x61; Byte.x0d; Byte.x0a; Byte.x62; Byte.x0c; Byte.x63].

(** The byte [0xff] alone is not UTF-8. *)
Definition not_utf8 : Utf8.bytes := [Byte.xff].

(** A file system with one readable regular file, [data.txt], a
    directory [out] and nothing else. *)
Definition one_file (data : Utf8.bytes) : filesystem :=
  fun p =>
    if Path_eqb p (mkPath (u "data.txt")) then Regular data true true
    else if Path_eqb p (mkPath (u "out")) then Directory
    else Absent true.

Definition no_environ : str -> option str := fun _ => None.

Definition invoke (data : Utf8.bytes) (args : list str) : invocation :=
  {| argv := args; environ := no_environ; files := one_file data;
     console := Utf8.encode |}.

(** A file name with a lone surrogate, as a command line gives it for
    a name that is not UTF-8. *)
Definition odd_name : str := [97; 56448]%N.

(** A file system where every path is the same readable, writable
    regular file. *)
Definition everywhere (data : Utf8.bytes) : filesystem :=
  fun _ => Regular data true true.

(** A name of 300 letters. *)
Definition long_name : str := repeat 97%N 300.

(** [one_file] on a file system whose names have at most 255
    characters: a path with a longer component is refused by every
    system call. *)
Definition short_names (data : Utf8.bytes) : filesystem :=
  fun p =>
    if existsb (fun part => Nat.ltb 255 (length part))
               (split_on SLASH (path_str p))
    then Unreachable NameTooLong
    else one_file data p.

Definition debug_environ : str -> option str :=
  fun k => if str_eqb k (u "OPEN_AGENT_DEBUG") then Some (u "1") else None.

End Sample.

(* ================================================================= *)
(** ** Reading a trace *)

Module Observe.
Import Py Os.

(** The texts that reached standard output through [print]. *)
Definition printed (tr : list event) : list str :=
  flat_map (fun e => match e with Stdout t => [t] | _ => [] end) tr.

(** The [[DEBUG]] lines on the error stream. *)
Definition debug_lines (tr : list event) : list (list frag) :=
  flat_map (fun e => match e with Stderr LDEBUG m => [m] | _ => [] end) tr.

(** The exceptions whose trace was written to the error stream. *)
Definition tracebacks (tr : list event) : list exn :=
  flat_map (fun e => match e with Traceback x => [x] | _ => [] end) tr.

(** The paths whose content was read, in order. *)
Definition reads (tr : list event) : list Path :=
  flat_map (fun e => match e with ReadText p => [p] | _ => [] end) tr.

(** The writes that were attempted, in order. *)
Definition writes (tr : list event) : list (Path * str) :=
  flat_map (fun e => match e with WriteText p t => [(p, t)] | _ => [] end) tr.

(** The keys of a dictionary, in order. *)
Definition keys (d : dict) : list str := map fst d.

End Observe.

Import Py Os Argparse Template.

(* ================================================================= *)
(** ** Strings: basic facts *)

Lemma cp_eqb_eq (a b : codepoint) : cp_eqb a b = true <-> a = b.
Proof. unfold cp_eqb. apply N.eqb_eq. Qed.

Lemma cp_eqb_refl (a : codepoint) : cp_eqb a a = true.
Proof. apply cp_eqb_eq. reflexivity. Qed.

Lemma str_eqb_eq (a b : str) : str_eqb a b = true <-> a = b.
Proof.
  revert b. induction a as [|x a IH]; intros [|y b]; simpl;
    try (split; [discriminate | congruence]); try tauto.
  rewrite andb_true_iff, cp_eqb_eq, IH. split.
  - intros [-> ->]. reflexivity.
  - intros H. injection H as -> ->. auto.
Qed.

Lemma str_eqb_refl (a : str) : str_eqb a a = true.
Proof. apply str_eqb_eq. reflexivity. Qed.

(* ================================================================= *)
(** ** Lines, words and characters *)

(** Induction for functions that look one character ahead: the step may
    use the property of the tail and of the tail's tail. *)
Lemma lookahead_ind (P : str -> Prop) :
  P [] ->
  (forall c s, P s -> (forall d s', s = d :: s' -> P s') -> P (c :: s)) ->
  forall s, P s.
Proof.
  intros H0 Hstep s.
  enough (P s /\ (forall d s', s = d :: s' -> P s')) by tauto.
  induction s as [|c s [IH1 IH2]].
  - split; [assumption | discriminate].
  - split.
    + apply Hstep; assumption.
    + intros d s' E. injection E as _ <-. assumption.
Qed.

Lemma newline_pieces_cons (sep : codepoint -> bool) (s : str) :
  exists p ps, Spec.newline_pieces sep s = p :: ps.
Proof.
  destruct s as [|c s]; simpl.
  - eauto.
  - destruct (sep c); [eauto|].
    destruct (Spec.newline_pieces sep s); eauto.
Qed.

Lemma drop_final_empty_cons (p q : str) (ps : list str) :
  Spec.drop_final_empty (p :: q :: ps) = p :: Spec.drop_final_empty (q :: ps).
Proof. destruct p; reflexivity. Qed.

Lemma drop_final_empty_single (p : str) :
  Spec.drop_final_empty [p] = if Spec.nonempty p then [p] else [].
Proof. destruct p; reflexivity. Qed.

Lemma rev_nonempty (l : str) : Spec.nonempty (rev l) = Spec.nonempty l.
Proof.
  destruct l as [|x l]; [reflexivity|]. simpl.
  destruct (rev l); reflexivity.
Qed.

Lemma splitlines_from_pieces (s : str) :
  forall line p ps,
    Spec.newline_pieces islinebreak s = p :: ps ->
    splitlines_from line s = Spec.drop_final_empty ((rev line ++ p) :: ps).
Proof.
  induction s as [|c s IH IH2] using lookahead_ind; intros line p ps Hp.
  - simpl in Hp. injection Hp as <- <-.
    rewrite app_nil_r, drop_final_empty_single, rev_nonempty.
    destruct line; reflexivity.
  - assert (Hnil : forall t,
               (forall line p ps,
                   Spec.newline_pieces islinebreak t = p :: ps ->
                   splitlines_from line t
                   = Spec.drop_final_empty ((rev line ++ p) :: ps)) ->
               splitlines_from [] t
               = Spec.drop_final_empty (Spec.newline_pieces islinebreak t)).
    { intros t Ht.
      destruct (newline_pieces_cons islinebreak t) as (p' & ps' & E).
      rewrite E. apply (Ht [] p' ps' E). }
    simpl in Hp |- *. destruct (islinebreak c) eqn:Hb.
    + injection Hp as <- Hps. rewrite app_nil_r.
      destruct (cp_eqb c CR).
      * destruct s as [|d s'].
        -- subst ps. simpl. destruct (rev line); reflexivity.
        -- destruct (cp_eqb d LF).
           ++ destruct (newline_pieces_cons islinebreak s') as (q & qs & E).
              rewrite <- Hps, E, drop_final_empty_cons, <- E.
              f_equal. apply Hnil. apply (IH2 d s' eq_refl).
           ++ destruct (newline_pieces_cons islinebreak (d :: s')) as (q & qs & E).
              rewrite <- Hps, E, drop_final_empty_cons, <- E.
              f_equal. apply Hnil. apply IH.
      * destruct (newline_pieces_cons islinebreak s) as (q & qs & E).
        rewrite <- Hps, E, drop_final_empty_cons, <- E.
        f_equal. apply Hnil. apply IH.
    + destruct (Spec.newline_pieces islinebreak s) as [|p' ps'] eqn:E.
      * destruct (newline_pieces_cons islinebreak s) as (q & qs & E').
        congruence.
      * injection Hp as <- <-. rewrite (IH (c :: line) p' ps' eq_refl).
        simpl. rewrite <- app_assoc. reflexivity.
Qed.

(** [splitlines] gives exactly the segments between line boundaries,
    without a trailing empty one. *)
Lemma splitlines_segments (s : str) :
  splitlines s = Spec.newline_segments islinebreak s.
Proof.
  unfold splitlines, Spec.newline_segments.
  destruct (newline_pieces_cons islinebreak s) as (p & ps & E).
  rewrite E. apply (splitlines_from_pieces s [] p ps E).
Qed.

Lemma split_from_tokens (s : str) :
  forall word p ps,
    fold_right
      (fun c ps =>
         if isspace c then [] :: ps
         else match ps with
              | p :: ps' => (c :: p) :: ps'
              | [] => [[c]]
              end)
      [[]] s = p :: ps ->
    split_from word s = filter Spec.nonempty ((rev word ++ p) :: ps).
Proof.
  induction s as [|c s IH]; intros word p ps Hp; simpl in Hp.
  - injection Hp as <- <-. simpl. rewrite app_nil_r, rev_nonempty.
    destruct word; reflexivity.
  - simpl. destruct (isspace c).
    + injection Hp as <- <-. simpl. rewrite app_nil_r, rev_nonempty.
      match goal with |- context [filter _ ?l] =>
        destruct l as [|q qs] eqn:E end.
      * destruct s; simpl in E; [discriminate|].
        destruct (isspace c0); [discriminate|].
        destruct (fold_right _ _ s); discriminate.
      * rewrite (IH [] q qs eq_refl). simpl.
        destruct word; reflexivity.
    + match type of Hp with context [fold_right ?f ?a s] =>
        destruct (fold_right f a s) as [|q qs] eqn:E end.
      * destruct s; simpl in E; [discriminate|].
        destruct (isspace c0); [discriminate|].
        destruct (fold_right _ _ s); discriminate.
      * injection Hp as <- <-. rewrite (IH (c :: word) q qs eq_refl).
        simpl. rewrite <- app_assoc. reflexivity.
Qed.

(** [split] gives exactly the non-empty tokens between white-space
    characters. *)
Lemma split_tokens (s : str) : split s = Spec.whitespace_tokens s.
Proof.
  unfold split, Spec.whitespace_tokens.
  match goal with |- context [filter _ ?l] => destruct l as [|q qs] eqn:E end.
  - destruct s; simpl in E; [discriminate|].
    destruct (isspace c); [discriminate|].
    destruct (fold_right _ _ s); discriminate.
  - apply (split_from_tokens s [] q qs E).
Qed.

(** *** Newline translation leaves lines and words alone *)

Lemma splitlines_from_universal (s : str) :
  forall line,
    splitlines_from line (Utf8.universal_newlines s) = splitlines_from line s.
Proof.
  induction s as [|c s IH IH2] using lookahead_ind; intros line.
  - reflexivity.
  - simpl. destruct (cp_eqb c CR) eqn:Hc.
    + apply cp_eqb_eq in Hc. subst c.
      change (islinebreak CR) with true. cbv iota.
      simpl. change (islinebreak LF) with true.
      change (cp_eqb LF CR) with false. cbv iota. f_equal.
      destruct s as [|d s'].
      * reflexivity.
      * destruct (cp_eqb d LF).
        -- apply (IH2 d s' eq_refl).
        -- apply IH.
    + simpl. rewrite Hc. destruct (islinebreak c).
      * f_equal. apply IH.
      * apply IH.
Qed.

Lemma split_from_universal (s : str) :
  forall word,
    split_from word (Utf8.universal_newlines s) = split_from word s.
Proof.
  induction s as [|c s IH IH2] using lookahead_ind; intros word.
  - reflexivity.
  - simpl. destruct (cp_eqb c CR) eqn:Hc.
    + apply cp_eqb_eq in Hc. subst c.
      change (isspace CR) with true. cbv iota.
      simpl. change (isspace LF) with true. cbv iota.
      destruct s as [|d s']; cbv beta match.
      * reflexivity.
      * destruct (cp_eqb d LF) eqn:Hd.
        -- apply cp_eqb_eq in Hd. subst d.
           rewrite (IH2 LF s' eq_refl).
           simpl (split_from [] (LF :: s')).
           change (isspace LF) with true. reflexivity.
        -- rewrite IH. reflexivity.
    + simpl. destruct (isspace c).
      * rewrite IH. reflexivity.
      * apply IH.
Qed.

(** Each CR LF pair costs one character; a lone CR is replaced, not
    removed. *)
Lemma universal_newlines_length (s : str) :
  length (Utf8.universal_newlines s) + Spec.crlf_pairs s = length s.
Proof.
  induction s as [|c s IH IH2] using lookahead_ind.
  - reflexivity.
  - simpl. destruct (cp_eqb c CR); simpl.
    + destruct s as [|d s'].
      * reflexivity.
      * destruct (cp_eqb d LF) eqn:Hd.
        -- specialize (IH2 d s' eq_refl). simpl in IH |- *.
           assert (Hcr : cp_eqb d CR = false).
           { apply cp_eqb_eq in Hd. subst d. reflexivity. }
           rewrite Hcr in *. simpl in *. lia.
        -- simpl in IH |- *. lia.
    + lia.
Qed.

(** *** What [process_file] returns and logs *)

Lemma process_file_regular (w : world) (p : Path) (data : Utf8.bytes)
    (wr : bool) (content : str) :
  fs w p = Regular data true wr ->
  Utf8.decode data = inr content ->
  let r := analyze (path_str p) (Utf8.universal_newlines content) in
  process_file p w
  = (World (fs w) (stdout_codec w) (DEBUG w)
       (trace w
        ++ (if DEBUG w
            then [Stderr LDEBUG [Lit "Processing file: "; OfPath p]] else [])
        ++ [ReadText p]
        ++ (if DEBUG w
            then [Stderr LDEBUG [Lit "Processing complete: "; OfDict (as_dict r)]]
            else [])),
     Return (as_dict r)).
Proof.
  intros Hfs Hdec r. subst r.
  unfold process_file, log_debug, read_text, decode_text, bind, get_DEBUG,
    get_node, emit, ret, as_dict, analyze, len.
  destruct w as [f k dbg tr]. simpl in *.
  destruct dbg; simpl; rewrite Hfs, Hdec; simpl;
    rewrite <- ?app_assoc; simpl; try rewrite app_nil_r; reflexivity.
Qed.

(** *** The decoder yields Unicode scalar values *)

Lemma is_continuation_range (b : N) :
  Utf8.is_continuation b = true -> (0x80 <= b < 0xC0)%N.
Proof.
  unfold Utf8.is_continuation. rewrite andb_true_iff, N.leb_le, N.ltb_lt. tauto.
Qed.

Ltac to_arith :=
  repeat match goal with
    | H : negb _ = false |- _ => apply negb_false_iff in H
    | H : (_ || _) = false |- _ => apply orb_false_iff in H; destruct H
    | H : Utf8.is_continuation _ = true |- _ => apply is_continuation_range in H
    | H : (_ <? _)%N = true |- _ => apply N.ltb_lt in H
    | H : (_ <? _)%N = false |- _ => apply N.ltb_ge in H
    | H : (_ =? _)%N = false |- _ => apply N.eqb_neq in H
    | H : (if (?a <? ?b)%N then _ else _) = false |- _ =>
        destruct (a <? b)%N eqn:?
    end.

Lemma decode_from_scalar (n : nat) :
  forall bs pos s,
    length bs <= n ->
    Utf8.decode_from pos bs = inr s ->
    Forall Spec.scalar_value s.
Proof.
  induction n as [|n IH]; intros [|b0 r0] pos s Hn H; simpl in Hn; try lia;
    try (injection H as <-; constructor).
  cbn [Utf8.decode_from] in H.
  pose proof (Byte.to_N_bounded b0) as B0.
  set (ch := Byte.to_N b0) in *.
  assert (Hcons : forall c p r t,
             length r <= n ->
             Spec.scalar_value c ->
             Utf8.cons_ok (E:=nat) c (Utf8.decode_from p r) = inr t ->
             Forall Spec.scalar_value t).
  { intros c p r t Hr Hc Ht.
    destruct (Utf8.decode_from p r) eqn:E; simpl in Ht; [discriminate|].
    injection Ht as <-. constructor; [assumption|].
    apply (IH r p); assumption. }
  destruct (ch <? 0x80)%N eqn:H1.
  { refine (Hcons _ _ _ _ _ _ H); [lia|]. to_arith. left. lia. }
  destruct (ch <? 0xC2)%N eqn:H2; [discriminate|].
  destruct (ch <? 0xE0)%N eqn:H3.
  { destruct r0 as [|b1 r1]; [discriminate|].
    destruct (Utf8.is_continuation (Byte.to_N b1)) eqn:C1; [|discriminate].
    simpl in Hn.
    refine (Hcons _ _ _ _ _ _ H); [lia|].
    to_arith. rewrite !N.shiftl_mul_pow2. left. lia. }
  destruct (ch <? 0xF0)%N eqn:H4.
  { destruct r0 as [|b1 [|b2 r2]]; try discriminate.
    match type of H with (if ?g then _ else _) = _ =>
      destruct g eqn:G1; [discriminate|] end.
    match type of H with (if ?g then _ else _) = _ =>
      destruct g eqn:G2; [discriminate|] end.
    simpl in Hn.
    refine (Hcons _ _ _ _ _ _ H); [lia|].
    to_arith; rewrite !N.shiftl_mul_pow2; unfold Spec.scalar_value; lia. }
  destruct (ch <? 0xF5)%N eqn:H5; [|discriminate].
  destruct r0 as [|b1 [|b2 [|b3 r3]]]; try discriminate.
  match type of H with (if ?g then _ else _) = _ =>
    destruct g eqn:G1; [discriminate|] end.
  match type of H with (if ?g then _ else _) = _ =>
    destruct g eqn:G2; [discriminate|] end.
  match type of H with (if ?g then _ else _) = _ =>
    destruct g eqn:G3; [discriminate|] end.
  simpl in Hn.
  refine (Hcons _ _ _ _ _ _ H); [lia|].
  to_arith; rewrite !N.shiftl_mul_pow2; unfold Spec.scalar_value; lia.
Qed.

(** Every code point of a decoded text is a Unicode scalar value. *)
Lemma decode_scalar_values (data : Utf8.bytes) (s : str) :
  Utf8.decode data = inr s -> Forall Spec.scalar_value s.
Proof. apply (decode_from_scalar (length data)). lia. Qed.

(* ================================================================= *)
(** ** The analysis *)

(** C1, as amended.  For every UTF-8 decodable file content, whose
    decoded characters are Unicode scalar values, the result of
    [process_file] has [lines] equal to the number of segments between
    the line boundaries of [str.splitlines] (LF, CR LF, CR and also VT,
    FF, FS, GS, RS, NEL, LS, PS), without a trailing empty segment;
    [words] equal to the number of non-empty tokens of a white-space
    split; and [characters] equal to the number of decoded scalar
    values less one for every CR LF pair, since the text is read with
    newline translation. *)
Theorem process_file_counts (w : world) (p : Path) (data : Utf8.bytes)
    (wr : bool) (content : str) :
  fs w p = Regular data true wr ->
  Utf8.decode data = inr content ->
  Forall Spec.scalar_value content /\
  exists r,
    snd (process_file p w) = Return (as_dict r) /\
    file r = path_str p /\
    lines r = length (Spec.newline_segments islinebreak content) /\
    words r = length (Spec.whitespace_tokens content) /\
    characters r + Spec.crlf_pairs content = length content.
Proof.
  intros Hfs Hdec. split; [exact (decode_scalar_values data content Hdec)|].
  exists (analyze (path_str p) (Utf8.universal_newlines content)).
  rewrite (process_file_regular w p data wr content Hfs Hdec). simpl.
  repeat split.
  - unfold splitlines. rewrite splitlines_from_universal.
    fold (splitlines content). rewrite splitlines_segments. reflexivity.
  - unfold split. rewrite split_from_universal.
    fold (split content). rewrite split_tokens. reflexivity.
  - apply universal_newlines_length.
Qed.

Lemma process_file_counts_witness :
  exists r,
    snd (process_file (mkPath (u "data.txt"))
           (start (Sample.invoke Sample.crlf_formfeed [u "data.txt"])))
    = Return (as_dict r) /\
    lines r = 3 /\ words r = 3 /\ characters r = 5.
Proof.
  destruct (process_file_counts
              (start (Sample.invoke Sample.crlf_formfeed [u "data.txt"]))
              (mkPath (u "data.txt")) Sample.crlf_formfeed true
              [97; 13; 10; 98; 12; 99]%N eq_refl eq_refl)
    as (_ & r & Hr & _ & Hl & Hw & Hc).
  exists r. repeat split; [exact Hr | exact Hl | exact Hw |].
  simpl in Hc. lia.
Defined.

(** C1 as the specification words it fails on the file ["a\r\nb\x0cc"]:
    with LF, CR LF and CR as the only separators it has two segments
    and six scalar values, where [process_file] reports three lines and
    five characters. *)
Lemma process_file_counts_counterexample :
  ~ (forall (w : world) (p : Path) (data : Utf8.bytes) (wr : bool)
            (content : str) (r : AnalysisResult),
        fs w p = Regular data true wr ->
        Utf8.decode data = inr content ->
        snd (process_file p w) = Return (as_dict r) ->
        lines r = length (Spec.newline_segments Spec.listed_newline content) /\
        words r = length (Spec.whitespace_tokens content) /\
        characters r = length content).
Proof.
  intros H.
  specialize (H (start (Sample.invoke Sample.crlf_formfeed [u "data.txt"]))
                (mkPath (u "data.txt")) Sample.crlf_formfeed true
                [97; 13; 10; 98; 12; 99]%N
                {| file := u "data.txt"; lines := 3; words := 3;
                   characters := 5 |}
                eq_refl eq_refl eq_refl).
  destruct H as (Hl & _ & Hc). vm_compute in Hl. discriminate Hl.
Qed.

(** C2.  A file holding ["a b\ncd\n"] is analysed as 2 lines, 3 words
    and 7 characters, with status ["success"]. *)
Theorem example_a_b_cd (files : filesystem) (codec : str -> nat + Utf8.bytes)
    (debug : bool) (tr : list event) (p : Path) (wr : bool) :
  snd (process_file p
         (World (fs_update files p (Regular Sample.a_b_cd true wr)) codec debug tr))
  = Return [(u "file", VStr (path_str p));
            (u "lines", VInt 2);
            (u "words", VInt 3);
            (u "characters", VInt 7);
            (u "encoding", VStr (u "utf-8"));
            (u "status", VStr (u "success"))].
Proof.
  rewrite (process_file_regular _ p Sample.a_b_cd wr
             [97; 32; 98; 10; 99; 100; 10]%N).
  - reflexivity.
  - simpl. unfold fs_update, Path_eqb. rewrite str_eqb_refl. reflexivity.
  - reflexivity.
Qed.

(* ================================================================= *)
(** ** The run of [main] *)

Ltac unfold_run :=
  unfold run, process_file, log_debug, log_error, log_info, exists_, is_file,
    read_text, write_text, decode_text, print, print_exc, try_except, bind,
    get_DEBUG, set_DEBUG, get_node, put_node, get_stdout_codec, emit, ret,
    raise.

Lemma run_missing (args : Namespace) (w : world) (c : bool) :
  fs w (input_file args) = Absent c ->
  run args w
  = (World (fs w) (stdout_codec w) (verbose args || DEBUG w)
       (trace w
        ++ [Exists (input_file args);
            Stderr LERROR [Lit "Input file not found: ";
                           OfPath (input_file args)]]),
     Return 2%Z).
Proof.
  intros H. destruct w as [f k d tr]. simpl in H. unfold_run.
  destruct (verbose args); simpl; rewrite H; simpl;
    rewrite <- app_assoc; reflexivity.
Qed.

(** The validation's [stat] fails: the exception leaves [main]. *)
Lemma run_stat_error (args : Namespace) (w : world) (why : stat_failure) :
  fs w (input_file args) = Unreachable why ->
  run args w
  = (World (fs w) (stdout_codec w) (verbose args || DEBUG w)
       (trace w ++ [Exists (input_file args)]),
     Raise (stat_error why (input_file args))).
Proof.
  intros H. destruct w as [f k d tr]. simpl in H. unfold_run.
  destruct (verbose args); simpl; rewrite H; reflexivity.
Qed.

Lemma run_not_a_file (args : Namespace) (w : world) :
  match fs w (input_file args) with
  | Directory | Special _ _ => True
  | _ => False
  end ->
  run args w
  = (World (fs w) (stdout_codec w) (verbose args || DEBUG w)
       (trace w
        ++ [Exists (input_file args); IsFile (input_file args);
            Stderr LERROR [Lit "Not a file: "; OfPath (input_file args)]]),
     Return 1%Z).
Proof.
  intros H. destruct w as [f k d tr]. simpl in H. unfold_run.
  destruct (f (input_file args)) eqn:E; try contradiction;
    destruct (verbose args); simpl; rewrite ?E; simpl; rewrite ?E; simpl;
    rewrite <- !app_assoc; reflexivity.
Qed.

Lemma run_read_error (args : Namespace) (w : world) (data : Utf8.bytes)
    (rd wr : bool) (e : exn) :
  fs w (input_file args) = Regular data rd wr ->
  read_error (input_file args) data rd = Some e ->
  let p := input_file args in
  let debug := verbose args || DEBUG w in
  run args w
  = (World (fs w) (stdout_codec w) debug
       (trace w
        ++ [Exists p; IsFile p;
            Stderr LINFO [Lit "Processing "; OfPath p; Lit "..."]]
        ++ (if debug
            then [Stderr LDEBUG [Lit "Processing file: "; OfPath p]] else [])
        ++ [ReadText p; Stderr LERROR [Lit "Processing error: "; OfExn e]]
        ++ (if debug then [Traceback e] else [])),
     Return 3%Z).
Proof.
  intros H He p debug. subst p debug.
  destruct w as [f k d tr]. simpl in H. unfold read_error in He. unfold_run.
  (destruct rd; [ destruct (Utf8.decode data) eqn:Hd; [|discriminate] | ]);
    injection He as <-;
    destruct (verbose args); destruct d;
    repeat (simpl; rewrite ?H, ?Hd);
    rewrite <- ?app_assoc; reflexivity.
Qed.

(** The run of [main] on a readable, decodable regular file. *)
Lemma run_success (args : Namespace) (w : world) (data : Utf8.bytes)
    (wr : bool) (content : str) :
  fs w (input_file args) = Regular data true wr ->
  Utf8.decode data = inr content ->
  let p := input_file args in
  let debug := verbose args || DEBUG w in
  let result := as_dict (analyze (path_str p) (Utf8.universal_newlines content)) in
  let rendered := render (format args) result in
  let analysed :=
    trace w
    ++ [Exists p; IsFile p;
        Stderr LINFO [Lit "Processing "; OfPath p; Lit "..."]]
    ++ (if debug
        then [Stderr LDEBUG [Lit "Processing file: "; OfPath p]] else [])
    ++ [ReadText p]
    ++ (if debug
        then [Stderr LDEBUG [Lit "Processing complete: "; OfDict result]]
        else []) in
  let failed (w' : world) (e : exn) :=
    (World (fs w') (stdout_codec w) debug
       (trace w'
        ++ [Stderr LERROR [Lit "Processing error: "; OfExn e]]
        ++ (if debug then [Traceback e] else [])),
     Return 3%Z) in
  run args w
  = match output args with
    | None =>
        match stdout_codec w rendered with
        | inr _ =>
            (World (fs w) (stdout_codec w) debug (analysed ++ [Stdout rendered]),
             Return 0%Z)
        | inl pos =>
            failed (World (fs w) (stdout_codec w) debug analysed)
                   (UnicodeEncodeError pos)
        end
    | Some q =>
        let (w', res) :=
          write_text q rendered (World (fs w) (stdout_codec w) debug analysed) in
        match res with
        | Return _ =>
            (World (fs w') (stdout_codec w) debug
               (trace w' ++ [Stderr LINFO [Lit "Output written to "; OfPath q]]),
             Return 0%Z)
        | Raise e => failed w' e
        end
    end.
Proof.
  intros H Hdec p debug result rendered analysed failed.
  assert (Hpf : forall d tr,
             process_file p (World (fs w) (stdout_codec w) d tr)
             = (World (fs w) (stdout_codec w) d
                  (tr ++ (if d
                          then [Stderr LDEBUG [Lit "Processing file: "; OfPath p]]
                          else [])
                      ++ [ReadText p]
                      ++ (if d
                          then [Stderr LDEBUG [Lit "Processing complete: ";
                                               OfDict result]]
                          else [])),
                Return result)).
  { intros d tr.
    apply (process_file_regular (World (fs w) (stdout_codec w) d tr)
             p data wr content H Hdec). }
  subst p. unfold run.
  unfold print, print_exc, log_error, log_info, exists_, is_file, try_except,
    bind, get_DEBUG, set_DEBUG, get_node, get_stdout_codec, emit, ret, raise.
  destruct w as [f k d tr]. simpl in *.
  assert (Hw : forall q text w0,
             DEBUG (fst (write_text q text w0)) = DEBUG w0 /\
             stdout_codec (fst (write_text q text w0)) = stdout_codec w0).
  { intros q text [f0 c0 d0 tr0]. unfold write_text, bind, emit, get_node,
      put_node, ret, raise. simpl.
    destruct (f0 q) as [[|]| |? [|]|? ? [|]|?]; simpl;
      try destruct (Utf8.encode text); split; reflexivity. }
  subst failed analysed debug rendered. unfold render.
  destruct (verbose args); repeat (simpl; rewrite ?H);
    rewrite Hpf; simpl;
    (destruct (output args) as [q|]; simpl;
     [ rewrite <- !app_assoc; simpl;
       match goal with |- context [write_text q ?t ?w0] =>
         destruct (Hw q t w0) as [Hd Hc];
         destruct (write_text q t w0) as [w' [[]|e]] end;
       simpl in *; destruct w' as [f' c' d' tr']; simpl in *; subst d' c';
       destruct d; simpl; rewrite <- ?app_assoc; reflexivity
     | match goal with |- context [k ?t] => destruct (k t) end;
       destruct d; simpl; rewrite <- ?app_assoc; reflexivity ]).
Qed.

(** What [read_text] and [write_text] do depends on the files only; the
    flag and the earlier trace are carried along. *)
Lemma read_text_frame (p : Path) (f : filesystem)
    (c : str -> nat + Utf8.bytes) (d : bool) (tr : list event) :
  read_text p (World f c d tr)
  = (World f c d (tr ++ [ReadText p]), snd (read_text p (World f c false []))).
Proof.
  unfold read_text, decode_text, bind, emit, get_node, ret, raise. simpl.
  destruct (f p) as [cr| |data a|data [|] wr|why]; simpl; try reflexivity;
    destruct (Utf8.decode data); reflexivity.
Qed.

Lemma write_text_frame (q : Path) (text : str) (f : filesystem)
    (c : str -> nat + Utf8.bytes) (d : bool) (tr : list event) :
  write_text q text (World f c d tr)
  = (World (fs (fst (write_text q text (World f c false [])))) c d
       (tr ++ [WriteText q text]),
     snd (write_text q text (World f c false []))).
Proof.
  unfold write_text, bind, emit, get_node, put_node, ret, raise. simpl.
  destruct (f q) as [[|]| |data [|]|data rd [|]|why]; simpl; try reflexivity;
    destruct (Utf8.encode text); reflexivity.
Qed.

Lemma read_text_error (w : world) (p : Path) (data : Utf8.bytes)
    (rd wr : bool) (e : exn) :
  fs w p = Regular data rd wr ->
  snd (read_text p w) = Raise e ->
  read_error p data rd = Some e.
Proof.
  destruct w as [f k d tr]. simpl. intros Hfs.
  unfold read_text, decode_text, read_error, bind, emit, get_node, ret, raise.
  simpl. rewrite Hfs. destruct rd; simpl.
  - destruct (Utf8.decode data); simpl; congruence.
  - congruence.
Qed.

Lemma process_file_inversion (w : world) (p : Path) (data : Utf8.bytes)
    (rd wr : bool) (result : dict) :
  fs w p = Regular data rd wr ->
  snd (process_file p w) = Return result ->
  rd = true /\
  exists content,
    Utf8.decode data = inr content /\
    result = as_dict (analyze (path_str p) (Utf8.universal_newlines content)).
Proof.
  intros Hfs Hres. destruct rd.
  - split; [reflexivity|].
    destruct (Utf8.decode data) as [pos|content] eqn:Hdec.
    + exfalso. revert Hres. destruct w as [f k d tr]. simpl in Hfs.
      unfold process_file, log_debug, read_text, decode_text, bind, get_DEBUG,
        get_node, emit, ret, raise.
      destruct d; repeat (simpl; rewrite ?Hfs, ?Hdec); discriminate.
    + exists content. split; [reflexivity|].
      rewrite (process_file_regular w p data wr content Hfs Hdec) in Hres.
      simpl in Hres. congruence.
  - exfalso. revert Hres. destruct w as [f k d tr]. simpl in Hfs.
    unfold process_file, log_debug, read_text, decode_text, bind, get_DEBUG,
      get_node, emit, ret, raise.
    destruct d; repeat (simpl; rewrite ?Hfs); discriminate.
Qed.

(* ================================================================= *)
(** ** Exit codes *)

(** C5.  A command line [FILE --format VALUE] whose value is not one of
    the choices is rejected by the argument parser, which reports the
    invalid choice and ends the process with status 2 -- not the status
    1 that the module's docstring assigns to invalid arguments.  Nothing
    is read: the usage error is the only event. *)
Theorem invalid_format_exit_status (w : world) (file_name v : str) :
  str_eqb file_name (u "--") = false ->
  parse_optional file_name = ClassA ->
  str_eqb v (u "--") = false ->
  parse_optional v = ClassA ->
  existsb (str_eqb v) choices = false ->
  main [file_name; u "--format"; v] w
  = (World (fs w) (stdout_codec w) (DEBUG w)
       (trace w ++ [Usage (InvalidChoice v)]),
     2%Z).
Proof.
  intros Hf1 Hf2 Hv1 Hv2 Hc.
  unfold main, parse_args, classify_args.
  rewrite Hf1, Hv1, Hf2, Hv2.
  change (str_eqb (u "--format") (u "--")) with false. cbv match.
  change (parse_optional (u "--format")) with (ClassO StoreFormat false None).
  simpl in Hc |- *. rewrite Hc. reflexivity.
Qed.

Lemma invalid_format_exit_status_witness :
  main [u "data.txt"; u "--format"; u "xml"]
       (start (Sample.invoke Sample.a_b_cd [u "data.txt"; u "--format"; u "xml"]))
  = (World (Sample.one_file Sample.a_b_cd) Utf8.encode false
       [Usage (InvalidChoice (u "xml"))],
     2%Z).
Proof.
  exact (invalid_format_exit_status
           (start (Sample.invoke Sample.a_b_cd
                     [u "data.txt"; u "--format"; u "xml"]))
           (u "data.txt") (u "xml") eq_refl eq_refl eq_refl eq_refl eq_refl).
Defined.

(** When [stat] reports that nothing is at the input path, the process
    reports [Input file not found] on the error stream and ends with
    status 2; the files are as they were and nothing went to standard
    output. *)
Theorem missing_input_file (inv : invocation) (args : Namespace) (c : bool) :
  parse_args (argv inv) = Parsed args ->
  files inv (input_file args) = Absent c ->
  execute inv
  = (World (files inv) (console inv)
       (verbose args || initial_DEBUG (environ inv))
       [Exists (input_file args);
        Stderr LERROR [Lit "Input file not found: "; OfPath (input_file args)]],
     2%Z).
Proof.
  intros Hparse Hfs. unfold execute, main. rewrite Hparse.
  rewrite (run_missing args (start inv) c Hfs). reflexivity.
Qed.

Lemma missing_input_file_witness :
  execute (Sample.invoke Sample.a_b_cd [u "nowhere.txt"])
  = (World (Sample.one_file Sample.a_b_cd) Utf8.encode false
       [Exists (mkPath (u "nowhere.txt"));
        Stderr LERROR [Lit "Input file not found: ";
                       OfPath (mkPath (u "nowhere.txt"))]],
     2%Z).
Proof.
  exact (missing_input_file
           (Sample.invoke Sample.a_b_cd [u "nowhere.txt"])
           {| input_file := mkPath (u "nowhere.txt"); output := None;
              format := u "json"; verbose := false |}
           true eq_refl eq_refl).
Defined.

(** C6.  The input path need not be one that [stat] reports absent for
    no file to be there.  When [stat] fails otherwise -- the name is
    longer than the file system allows, so that no file has it, or a
    directory on the way may not be searched -- [exists()] raises, and
    as [main] calls it before its [try], the exception leaves [main]:
    the process writes the exception trace, not an
    [Input file not found] line, and ends with status 1, not with the
    status 2 that the module's docstring gives to an input file that
    is not found.  The files are as they were and nothing went to
    standard output. *)
Theorem missing_input_stat_failure (inv : invocation) (args : Namespace)
    (why : stat_failure) :
  parse_args (argv inv) = Parsed args ->
  files inv (input_file args) = Unreachable why ->
  execute inv
  = (World (files inv) (console inv)
       (verbose args || initial_DEBUG (environ inv))
       [Exists (input_file args);
        Traceback (stat_error why (input_file args))],
     1%Z).
Proof.
  intros Hparse Hfs. unfold execute, main. rewrite Hparse.
  rewrite (run_stat_error args (start inv) why Hfs). reflexivity.
Qed.

Lemma missing_input_stat_failure_witness :
  let inv := {| argv := [Sample.long_name]; environ := Sample.no_environ;
                files := Sample.short_names Sample.a_b_cd;
                console := Utf8.encode |} in
  nothing_there (files inv (mkPath Sample.long_name)) = true /\
  execute inv
  = (World (Sample.short_names Sample.a_b_cd) Utf8.encode false
       [Exists (mkPath Sample.long_name);
        Traceback (OSError 36 (mkPath Sample.long_name))],
     1%Z).
Proof.
  split; [reflexivity|].
  exact (missing_input_stat_failure
           {| argv := [Sample.long_name]; environ := Sample.no_environ;
              files := Sample.short_names Sample.a_b_cd;
              console := Utf8.encode |}
           {| input_file := mkPath Sample.long_name; output := None;
              format := u "json"; verbose := false |}
           NameTooLong eq_refl eq_refl).
Defined.

(** C7.  When the input path exists but is not a regular file -- a
    directory, a device -- the process reports [Not a file] on the
    error stream and ends with status 1. *)
Theorem not_a_regular_file (inv : invocation) (args : Namespace) :
  parse_args (argv inv) = Parsed args ->
  match files inv (input_file args) with
  | Directory | Special _ _ => True
  | Absent _ | Regular _ _ _ | Unreachable _ => False
  end ->
  execute inv
  = (World (files inv) (console inv)
       (verbose args || initial_DEBUG (environ inv))
       [Exists (input_file args); IsFile (input_file args);
        Stderr LERROR [Lit "Not a file: "; OfPath (input_file args)]],
     1%Z).
Proof.
  intros Hparse Hfs. unfold execute, main. rewrite Hparse.
  rewrite (run_not_a_file args (start inv)); [reflexivity|].
  simpl. destruct (files inv (input_file args)); tauto.
Qed.

Lemma not_a_regular_file_witness :
  execute (Sample.invoke Sample.a_b_cd [u "out"; u "-v"])
  = (World (Sample.one_file Sample.a_b_cd) Utf8.encode true
       [Exists (mkPath (u "out")); IsFile (mkPath (u "out"));
        Stderr LERROR [Lit "Not a file: "; OfPath (mkPath (u "out"))]],
     1%Z).
Proof.
  exact (not_a_regular_file
           (Sample.invoke Sample.a_b_cd [u "out"; u "-v"])
           {| input_file := mkPath (u "out"); output := None;
              format := u "json"; verbose := true |}
           eq_refl I).
Defined.

(** C8.  When reading or decoding the input file raises, the process
    logs [Processing error] with the exception on the error stream and
    ends with status 3; the trace of the exception follows exactly when
    debug mode is on, through [--verbose] or the environment. *)
Theorem read_failure (inv : invocation) (args : Namespace)
    (data : Utf8.bytes) (rd wr : bool) (e : exn) :
  parse_args (argv inv) = Parsed args ->
  files inv (input_file args) = Regular data rd wr ->
  snd (read_text (input_file args) (start inv)) = Raise e ->
  let p := input_file args in
  let debug := verbose args || initial_DEBUG (environ inv) in
  exit_code inv = 3%Z /\
  final_trace inv
  = [Exists p; IsFile p;
     Stderr LINFO [Lit "Processing "; OfPath p; Lit "..."]]
    ++ (if debug
        then [Stderr LDEBUG [Lit "Processing file: "; OfPath p]] else [])
    ++ [ReadText p; Stderr LERROR [Lit "Processing error: "; OfExn e]]
    ++ (if debug then [Traceback e] else []) /\
  In (Stderr LERROR [Lit "Processing error: "; OfExn e]) (final_trace inv) /\
  (In (Traceback e) (final_trace inv) <-> debug = true).
Proof.
  intros Hparse Hfs Hread p debug.
  pose proof (read_text_error (start inv) p data rd wr e Hfs Hread) as He.
  pose proof (run_read_error args (start inv) data rd wr e Hfs He) as Hrun.
  cbv zeta in Hrun. simpl (DEBUG _) in Hrun. simpl (trace _) in Hrun.
  fold p debug in Hrun.
  assert (Hexec : execute inv
                  = (World (files inv) (console inv) debug
                       ([Exists p; IsFile p;
                         Stderr LINFO [Lit "Processing "; OfPath p; Lit "..."]]
                        ++ (if debug
                            then [Stderr LDEBUG [Lit "Processing file: ";
                                                 OfPath p]]
                            else [])
                        ++ [ReadText p;
                            Stderr LERROR [Lit "Processing error: "; OfExn e]]
                        ++ (if debug then [Traceback e] else [])),
                     3%Z)).
  { unfold execute, main. rewrite Hparse, Hrun. reflexivity. }
  unfold exit_code, final_trace. rewrite Hexec. simpl (snd _). simpl (trace _).
  split; [reflexivity|]. split; [reflexivity|].
  destruct debug; simpl; split.
  - auto 10.
  - split; [reflexivity | auto 10].
  - auto 10.
  - split; [|discriminate].
    intros H. repeat (destruct H as [H|H]; [discriminate H|]). contradiction.
Qed.

Lemma read_failure_witness :
  exit_code (Sample.invoke Sample.not_utf8 [u "data.txt"]) = 3%Z /\
  final_trace (Sample.invoke Sample.not_utf8 [u "data.txt"])
  = [Exists (mkPath (u "data.txt")); IsFile (mkPath (u "data.txt"));
     Stderr LINFO [Lit "Processing "; OfPath (mkPath (u "data.txt")); Lit "..."];
     ReadText (mkPath (u "data.txt"));
     Stderr LERROR [Lit "Processing error: "; OfExn (UnicodeDecodeError 0)]].
Proof.
  destruct (read_failure
              (Sample.invoke Sample.not_utf8 [u "data.txt"])
              {| input_file := mkPath (u "data.txt"); output := None;
                 format := u "json"; verbose := false |}
              Sample.not_utf8 true true (UnicodeDecodeError 0)
              eq_refl eq_refl eq_refl) as (Hc & Ht & _ & _).
  split; [exact Hc | exact Ht].
Defined.

(** C10.  When the analysis has succeeded and writing the rendered text
    to the output path raises, [main] does not let the exception out:
    the same handler logs [Processing error] with the exception, adds
    its trace in debug mode, and [main] returns 3. *)
Theorem write_failure (inv : invocation) (args : Namespace)
    (data : Utf8.bytes) (rd wr : bool) (result : dict) (q : Path) (e : exn) :
  parse_args (argv inv) = Parsed args ->
  files inv (input_file args) = Regular data rd wr ->
  snd (process_file (input_file args) (start inv)) = Return result ->
  output args = Some q ->
  snd (write_text q (render (format args) result) (start inv)) = Raise e ->
  let debug := verbose args || initial_DEBUG (environ inv) in
  snd (run args (start inv)) = Return 3%Z /\
  exit_code inv = 3%Z /\
  (exists before,
      final_trace inv
      = before
        ++ [WriteText q (render (format args) result);
            Stderr LERROR [Lit "Processing error: "; OfExn e]]
        ++ (if debug then [Traceback e] else [])).
Proof.
  intros Hparse Hfs Hpf Hout Hwrite debug.
  destruct (process_file_inversion (start inv) (input_file args) data rd wr
              result Hfs Hpf) as (-> & content & Hdec & ->).
  pose proof (run_success args (start inv) data wr content Hfs Hdec) as Hrun.
  cbv zeta in Hrun. rewrite Hout in Hrun.
  simpl (DEBUG _) in Hrun. simpl (trace _) in Hrun.
  simpl (fs (start inv)) in Hrun. simpl (stdout_codec (start inv)) in Hrun.
  fold debug in Hrun.
  rewrite write_text_frame in Hrun.
  unfold start in Hwrite.
  rewrite write_text_frame in Hwrite. simpl (snd _) in Hwrite.
  rewrite Hwrite in Hrun. cbn [fs trace DEBUG] in Hrun.
  assert (Hexec : snd (execute inv) = 3%Z /\
                  trace (fst (execute inv)) = trace (fst (run args (start inv)))).
  { unfold execute, main. rewrite Hparse, Hrun. split; reflexivity. }
  destruct Hexec as [Hcode Htrace].
  split; [rewrite Hrun; reflexivity|].
  split; [exact Hcode|].
  unfold final_trace. rewrite Htrace, Hrun. cbn [trace fst].
  match goal with
  | |- exists before, (?X ++ _) ++ _ = _ => exists X
  end.
  rewrite <- app_assoc. reflexivity.
Qed.

Lemma write_failure_witness :
  exit_code (Sample.invoke Sample.a_b_cd [u "data.txt"; u "-o"; u "out"])
  = 3%Z.
Proof.
  exact (proj1 (proj2
    (write_failure
       (Sample.invoke Sample.a_b_cd [u "data.txt"; u "-o"; u "out"])
       {| input_file := mkPath (u "data.txt"); output := Some (mkPath (u "out"));
          format := u "json"; verbose := false |}
       Sample.a_b_cd true true
       (as_dict {| file := u "data.txt"; lines := 2; words := 3;
                   characters := 7 |})
       (mkPath (u "out")) (IsADirectoryError (mkPath (u "out")))
       eq_refl eq_refl eq_refl eq_refl eq_refl))).
Defined.

(** C9, as amended.  For a readable empty input file the result has 0
    lines, 0 words, 0 characters and status ["success"]; the process
    ends with status 0 when the rendered text is delivered without
    error, to the output path or to standard output. *)
Theorem empty_input_file (inv : invocation) (args : Namespace) (wr : bool) :
  parse_args (argv inv) = Parsed args ->
  files inv (input_file args) = Regular [] true wr ->
  let result :=
    [(u "file", VStr (path_str (input_file args)));
     (u "lines", VInt 0);
     (u "words", VInt 0);
     (u "characters", VInt 0);
     (u "encoding", VStr (u "utf-8"));
     (u "status", VStr (u "success"))] in
  snd (process_file (input_file args) (start inv)) = Return result /\
  (snd (match output args with
        | Some q => write_text q (render (format args) result) (start inv)
        | None => print (render (format args) result) (start inv)
        end) = Return tt ->
   exit_code inv = 0%Z).
Proof.
  intros Hparse Hfs result.
  assert (Hdec : Utf8.decode [] = inr []) by reflexivity.
  split.
  - rewrite (process_file_regular (start inv) (input_file args) [] wr []
               Hfs Hdec).
    reflexivity.
  - intros Hdeliver.
    pose proof (run_success args (start inv) [] wr [] Hfs Hdec) as Hrun.
    cbv zeta in Hrun.
    change (as_dict (analyze (path_str (input_file args))
                       (Utf8.universal_newlines [])))
      with result in Hrun.
    simpl (fs (start inv)) in Hrun. simpl (stdout_codec (start inv)) in Hrun.
    unfold exit_code, execute, main. rewrite Hparse.
    destruct (output args) as [q|].
    + unfold start in Hdeliver.
      rewrite write_text_frame in Hdeliver. simpl (snd _) in Hdeliver.
      rewrite write_text_frame in Hrun.
      rewrite Hdeliver in Hrun. rewrite Hrun. reflexivity.
    + unfold print, bind, get_stdout_codec, start in Hdeliver.
      simpl in Hdeliver.
      destruct (console inv (render (format args) result)) as [pos|bs];
        [discriminate Hdeliver|].
      rewrite Hrun. reflexivity.
Qed.

Lemma empty_input_file_witness :
  exit_code (Sample.invoke [] [u "data.txt"; u "-o"; u "result.json"]) = 0%Z.
Proof.
  exact (proj2
    (empty_input_file
       (Sample.invoke [] [u "data.txt"; u "-o"; u "result.json"])
       {| input_file := mkPath (u "data.txt");
          output := Some (mkPath (u "result.json"));
          format := u "json"; verbose := false |}
       true eq_refl eq_refl) eq_refl).
Defined.

(** C9 as worded fails when the output cannot be written: with an empty
    [data.txt] and the directory [out] as output path the process ends
    with status 3. *)
Lemma empty_input_file_counterexample :
  ~ (forall (inv : invocation) (args : Namespace) (wr : bool),
        parse_args (argv inv) = Parsed args ->
        files inv (input_file args) = Regular [] true wr ->
        exit_code inv = 0%Z).
Proof.
  intros H.
  specialize (H (Sample.invoke [] [u "data.txt"; u "-o"; u "out"])
                {| input_file := mkPath (u "data.txt");
                   output := Some (mkPath (u "out"));
                   format := u "json"; verbose := false |}
                true eq_refl eq_refl).
  vm_compute in H. discriminate H.
Qed.

(* ================================================================= *)
(** ** Text mode *)

Lemma fold_left_snoc_map {A B} (f : A -> B) (l : list A) (acc : list B) :
  fold_left (fun acc x => acc ++ [f x]) l acc = acc ++ map f l.
Proof.
  revert acc. induction l as [|x l IH]; intros acc; simpl.
  - rewrite app_nil_r. reflexivity.
  - rewrite IH, <- app_assoc. reflexivity.
Qed.

(** [output_text] joins one [key: value] entry per item with LF. *)
Lemma output_text_entries (data : dict) :
  output_text data
  = join [LF] (map (fun kv => fst kv ++ u ": " ++ str_value (snd kv)) data).
Proof.
  unfold output_text.
  rewrite (fold_left_snoc_map
             (fun kv => fst kv ++ u ": " ++ str_value (snd kv)) data []).
  reflexivity.
Qed.

Lemma split_on_none (sep : codepoint) (s : str) :
  contains sep s = false -> split_on sep s = [s].
Proof.
  unfold contains. induction s as [|c s IH]; simpl; intros H.
  - reflexivity.
  - apply orb_false_iff in H. destruct H as [Hc Hs].
    assert (E : cp_eqb c sep = false).
    { destruct (cp_eqb c sep) eqn:E; [|reflexivity].
      apply cp_eqb_eq in E. subst c. rewrite cp_eqb_refl in Hc. discriminate. }
    rewrite E, (IH Hs). reflexivity.
Qed.

Lemma split_on_cut (sep : codepoint) (a b : str) :
  contains sep a = false ->
  split_on sep (a ++ sep :: b) = a :: split_on sep b.
Proof.
  unfold contains. induction a as [|c a IH]; simpl; intros H.
  - rewrite cp_eqb_refl. reflexivity.
  - apply orb_false_iff in H. destruct H as [Hc Hs].
    assert (E : cp_eqb c sep = false).
    { destruct (cp_eqb c sep) eqn:E; [|reflexivity].
      apply cp_eqb_eq in E. subst c. rewrite cp_eqb_refl in Hc. discriminate. }
    rewrite E, (IH Hs). reflexivity.
Qed.

Lemma split_on_join (sep : codepoint) (parts : list str) :
  parts <> [] ->
  Forall (fun p => contains sep p = false) parts ->
  split_on sep (join [sep] parts) = parts.
Proof.
  induction parts as [|p parts IH]; intros Hne Hall; [congruence|].
  inversion Hall as [|? ? Hp Hrest]; subst.
  destruct parts as [|q parts].
  - simpl. apply split_on_none. assumption.
  - change (join [sep] (p :: q :: parts))
      with (p ++ sep :: join [sep] (q :: parts)).
    rewrite split_on_cut by assumption.
    rewrite IH; [reflexivity | discriminate | assumption].
Qed.

Lemma contains_app (c : codepoint) (a b : str) :
  contains c (a ++ b) = contains c a || contains c b.
Proof. unfold contains. apply existsb_app. Qed.

Lemma uint_digits_no_LF (d : Decimal.uint) : contains LF (uint_digits d) = false.
Proof. induction d; simpl; try assumption; reflexivity. Qed.

Lemma str_int_no_LF (n : Z) : contains LF (str_int n) = false.
Proof.
  unfold str_int. destruct (Z.to_int n); [|simpl]; apply uint_digits_no_LF.
Qed.

(** C4, as amended.  For every AnalysisResult the text rendering is the
    LF-join of six [key: value] entries, one per field in the order
    file, lines, words, characters, encoding, status, the value being
    the string itself or the decimal numeral; it has exactly six lines
    whenever the file name holds no LF. *)
Theorem output_text_six_entries (r : AnalysisResult) :
  output_text (as_dict r)
  = join [LF]
      [u "file: " ++ file r;
       u "lines: " ++ str_int (Z.of_nat (lines r));
       u "words: " ++ str_int (Z.of_nat (words r));
       u "characters: " ++ str_int (Z.of_nat (characters r));
       u "encoding: utf-8";
       u "status: success"] /\
  (contains LF (file r) = false ->
   Spec.text_lines (output_text (as_dict r)) = 6).
Proof.
  split.
  - rewrite output_text_entries. reflexivity.
  - intros Hfile. rewrite output_text_entries. unfold Spec.text_lines.
    rewrite split_on_join; [reflexivity | discriminate |].
    cbn [as_dict map fst snd str_value].
    repeat constructor;
      rewrite ?contains_app, ?Hfile, ?str_int_no_LF; reflexivity.
Qed.

Lemma output_text_six_entries_witness :
  Spec.text_lines
    (output_text (as_dict {| file := u "data.txt"; lines := 2; words := 3;
                             characters := 7 |})) = 6.
Proof.
  exact (proj2 (output_text_six_entries
                  {| file := u "data.txt"; lines := 2; words := 3;
                     characters := 7 |})
               eq_refl).
Defined.

(** C4 as worded fails for a file name that contains a line feed: the
    text rendering of such a result has seven lines. *)
Lemma output_text_six_entries_counterexample :
  ~ (forall r : AnalysisResult,
        Spec.text_lines (output_text (as_dict r)) = 6).
Proof.
  intros H.
  specialize (H {| file := [97; 10; 98]%N; lines := 1; words := 1;
                   characters := 1 |}).
  vm_compute in H. discriminate H.
Qed.

(* ================================================================= *)
(** ** JSON mode: decoding what [dumps] produced *)

Section JsonRoundTrip.
Local Open Scope N_scope.

Lemma forall_below (P : N -> Prop) (k : nat) :
  (forall n : nat, (n < k)%nat -> P (N.of_nat n)) ->
  forall c : N, c < N.of_nat k -> P c.
Proof.
  intros H c Hc. rewrite <- (N2Nat.id c). apply H. lia.
Qed.

(** A [\u00XX] escape of a control character reads back as that
    character. *)
Lemma scanstring_u_escape (c : codepoint) :
  c < 32 ->
  forall rest,
    Json.scanstring (Json.u_escape c ++ rest) = Json.push c (Json.scanstring rest).
Proof.
  intros Hc. pattern c. apply (forall_below _ 32%nat); [|exact Hc].
  intros n Hn rest.
  do 32 (destruct n as [|n]; [reflexivity|]). lia.
Qed.

Lemma scanstring_escape (c : codepoint) (rest : str) :
  Json.scanstring (Json.escape c ++ rest) = Json.push c (Json.scanstring rest).
Proof.
  unfold Json.escape, QUOTE, BACKSLASH.
  destruct (c =? 34) eqn:H34; [apply N.eqb_eq in H34; subst c; reflexivity|].
  destruct (c =? 92) eqn:H92; [apply N.eqb_eq in H92; subst c; reflexivity|].
  destruct (c =? 10) eqn:H10; [apply N.eqb_eq in H10; subst c; reflexivity|].
  destruct (c =? 13) eqn:H13; [apply N.eqb_eq in H13; subst c; reflexivity|].
  destruct (c =? 9) eqn:H9; [apply N.eqb_eq in H9; subst c; reflexivity|].
  destruct (c =? 8) eqn:H8; [apply N.eqb_eq in H8; subst c; reflexivity|].
  destruct (c =? 12) eqn:H12; [apply N.eqb_eq in H12; subst c; reflexivity|].
  destruct (c <? 32) eqn:Hlt.
  - apply scanstring_u_escape. apply N.ltb_lt. assumption.
  - cbn [app Json.scanstring]. unfold QUOTE, BACKSLASH.
    rewrite H34, H92, Hlt. reflexivity.
Qed.

(** The body of an encoded string, up to its closing quote, reads back
    as the string. *)
Lemma scanstring_encode (s rest : str) :
  Json.scanstring (flat_map Json.escape s ++ QUOTE :: rest) = Some (s, rest).
Proof.
  induction s as [|c s IH].
  - reflexivity.
  - cbn [flat_map]. rewrite <- app_assoc, scanstring_escape, IH. reflexivity.
Qed.

Lemma scan_digits_uint (d : Decimal.uint) (rest : str) :
  Json.no_digit_ahead rest ->
  Json.scan_digits (uint_digits d ++ rest) = (d, rest).
Proof.
  intros Hrest. induction d; cbn [uint_digits app];
    try (cbn [Json.scan_digits]; rewrite IHd; reflexivity).
  destruct rest as [|c rest]; [reflexivity|].
  simpl in Hrest. cbn [Json.scan_digits]. rewrite Hrest. reflexivity.
Qed.

Lemma nzhead_shape (d : Decimal.uint) :
  match Decimal.nzhead d with
  | Decimal.D0 _ => False
  | _ => True
  end.
Proof. induction d; simpl; auto. Qed.

Lemma well_formed_unorm (d : Decimal.uint) :
  Json.well_formed_int (Decimal.unorm d) = true.
Proof.
  unfold Decimal.unorm. pose proof (nzhead_shape d) as H.
  destruct (Decimal.nzhead d); try reflexivity. contradiction.
Qed.

Lemma well_formed_to_uint (p : positive) :
  Json.well_formed_int (Pos.to_uint p) = true.
Proof.
  replace (Pos.to_uint p) with (Decimal.unorm (Pos.to_uint p)).
  - apply well_formed_unorm.
  - rewrite <- DecimalPos.Unsigned.to_of, DecimalPos.Unsigned.of_to.
    reflexivity.
Qed.

Lemma uint_digits_head (d : Decimal.uint) :
  Json.well_formed_int d = true ->
  exists c t,
    uint_digits d = c :: t /\ (c =? MINUS) = false /\ (c =? QUOTE) = false
    /\ Json.is_ws c = false.
Proof.
  destruct d; simpl; intros H; try discriminate; eauto 7.
Qed.

(** A decimal numeral followed by something that is not a digit reads
    back as the integer. *)
Lemma scan_int_str_int (n : Z) (rest : str) :
  Json.no_digit_ahead rest ->
  Json.scan_int (str_int n ++ rest) = Some (n, rest).
Proof.
  intros Hrest. unfold str_int.
  pose proof (DecimalZ.of_to n) as Hn.
  assert (Hwf : match Z.to_int n with
                | Decimal.Pos d | Decimal.Neg d => Json.well_formed_int d = true
                end).
  { destruct n; simpl; try reflexivity; apply well_formed_to_uint. }
  destruct (Z.to_int n) as [d|d].
  - destruct (uint_digits_head d Hwf) as (c & t & E & Hm & _ & _).
    unfold Json.scan_int. rewrite E. cbn [app]. rewrite Hm.
    change (c :: t ++ rest) with ((c :: t) ++ rest). rewrite <- E.
    rewrite (scan_digits_uint d rest Hrest), Hwf, Hn. reflexivity.
  - unfold Json.scan_int. cbn [app].
    change (MINUS =? MINUS) with true. cbv match.
    rewrite (scan_digits_uint d rest Hrest), Hwf, Hn. reflexivity.
Qed.

Lemma scan_value_encode (v : value) (rest : str) :
  Json.no_digit_ahead rest ->
  Json.scan_value (Json.encode_value v ++ rest) = Some (v, rest).
Proof.
  intros Hrest. destruct v as [s|n]; cbn [Json.encode_value].
  - unfold Json.encode_basestring, Json.scan_value. cbn [app].
    change (QUOTE =? QUOTE) with true. cbv match.
    rewrite <- app_assoc. cbn [app]. rewrite scanstring_encode. reflexivity.
  - pose proof (scan_int_str_int n rest Hrest) as H.
    unfold Json.scan_value.
    assert (Hhead : exists c t, str_int n ++ rest = c :: t /\ (c =? QUOTE) = false).
    { unfold str_int.
      assert (Hwf : match Z.to_int n with
                    | Decimal.Pos d | Decimal.Neg d =>
                        Json.well_formed_int d = true
                    end).
      { destruct n; simpl; try reflexivity; apply well_formed_to_uint. }
      destruct (Z.to_int n) as [d|d].
      - destruct (uint_digits_head d Hwf) as (c & t & E & _ & Hq & _).
        rewrite E. exists c, (t ++ rest). split; [reflexivity | assumption].
      - exists MINUS, (uint_digits d ++ rest). split; reflexivity. }
    destruct Hhead as (c & t & E & Hq).
    rewrite E in *. rewrite Hq, H. reflexivity.
Qed.

Lemma encode_value_head (v : value) :
  exists c t, Json.encode_value v = c :: t /\ Json.is_ws c = false.
Proof.
  destruct v as [s|n]; cbn [Json.encode_value].
  - exists QUOTE, (flat_map Json.escape s ++ [QUOTE]). split; reflexivity.
  - unfold str_int.
    assert (Hwf : match Z.to_int n with
                  | Decimal.Pos d | Decimal.Neg d =>
                      Json.well_formed_int d = true
                  end).
    { destruct n; simpl; try reflexivity; apply well_formed_to_uint. }
    destruct (Z.to_int n) as [d|d].
    + destruct (uint_digits_head d Hwf) as (c & t & E & _ & _ & Hw).
      exists c, t. split; assumption.
    + exists MINUS, (uint_digits d). split; reflexivity.
Qed.

Lemma encode_item_shape (kv : str * value) (tail : str) :
  Json.encode_item kv ++ tail
  = QUOTE :: flat_map Json.escape (fst kv)
      ++ QUOTE :: COLON :: SPACE :: Json.encode_value (snd kv) ++ tail.
Proof.
  unfold Json.encode_item, Json.encode_basestring.
  cbn [app]. rewrite <- !app_assoc. reflexivity.
Qed.

(** One round of [scan_members] over an encoded member. *)
Lemma scan_members_item (fuel : nat) (kv : str * value) (tail : str)
    (acc : dict) :
  Json.no_digit_ahead tail ->
  Json.scan_members (S fuel) (Json.encode_item kv ++ tail) acc
  = match Json.skip_ws tail with
    | d :: s5 =>
        if d =? 125 then Some (dict_set acc (fst kv) (snd kv), s5)
        else if d =? 44 then
          Json.scan_members fuel (Json.skip_ws s5)
                            (dict_set acc (fst kv) (snd kv))
        else None
    | [] => None
    end.
Proof.
  intros Htail. rewrite encode_item_shape. cbn [Json.scan_members].
  change (negb (QUOTE =? QUOTE)) with false. cbv match.
  rewrite scanstring_encode.
  change (Json.skip_ws (COLON :: SPACE :: Json.encode_value (snd kv) ++ tail))
    with (COLON :: SPACE :: Json.encode_value (snd kv) ++ tail).
  change (negb (COLON =? COLON)) with false. cbv match.
  destruct (encode_value_head (snd kv)) as (c & t & E & Hw).
  assert (Hskip : Json.skip_ws (SPACE :: Json.encode_value (snd kv) ++ tail)
                  = Json.encode_value (snd kv) ++ tail).
  { rewrite E. cbn [app Json.skip_ws].
    change (Json.is_ws SPACE) with true. cbv match. rewrite Hw. reflexivity. }
  rewrite Hskip, (scan_value_encode (snd kv) tail Htail). reflexivity.
Qed.

Lemma scan_members_last (fuel : nat) (kv : str * value) (rest : str)
    (acc : dict) :
  Json.scan_members (S fuel) (Json.encode_item kv ++ LF :: 125 :: rest) acc
  = Some (dict_set acc (fst kv) (snd kv), rest).
Proof. rewrite scan_members_item by reflexivity. reflexivity. Qed.

Lemma scan_members_more (fuel : nat) (kv : str * value) (t : str)
    (acc : dict) :
  Json.scan_members (S fuel)
    (Json.encode_item kv ++ 44 :: LF :: 32 :: 32 :: QUOTE :: t) acc
  = Json.scan_members fuel (QUOTE :: t) (dict_set acc (fst kv) (snd kv)).
Proof. rewrite scan_members_item by reflexivity. reflexivity. Qed.

Lemma scan_members_items (items : list (str * value)) :
  forall (fuel : nat) (acc : dict) (rest : str),
    items <> [] ->
    (length items <= fuel)%nat ->
    Json.scan_members fuel
      (join (u "," ++ LF :: u "  ") (map Json.encode_item items)
       ++ LF :: 125 :: rest)
      acc
    = Some (fold_left (fun d kv => dict_set d (fst kv) (snd kv)) items acc,
            rest).
Proof.
  induction items as [|kv items IH]; intros fuel acc rest Hne Hfuel;
    [congruence|].
  destruct fuel as [|fuel]; [simpl in Hfuel; lia|].
  destruct items as [|kv' items].
  - cbn [map join]. rewrite scan_members_last. reflexivity.
  - set (J := join (u "," ++ LF :: u "  ")
                   (map Json.encode_item (kv' :: items))) in *.
    assert (HJ : exists t, J ++ LF :: 125 :: rest = QUOTE :: t).
    { subst J. destruct items as [|kv'' items]; cbn [map join];
        rewrite <- ?app_assoc; rewrite encode_item_shape; eauto. }
    destruct HJ as (t & HJ).
    assert (Etext : join (u "," ++ LF :: u "  ")
                         (map Json.encode_item (kv :: kv' :: items))
                    ++ LF :: 125 :: rest
                    = Json.encode_item kv
                      ++ 44 :: LF :: 32 :: 32 :: QUOTE :: t).
    { rewrite <- HJ.
      change (join (u "," ++ LF :: u "  ")
                   (map Json.encode_item (kv :: kv' :: items)))
        with (Json.encode_item kv ++ (44 :: LF :: 32 :: 32 :: J)).
      rewrite <- app_assoc. reflexivity. }
    rewrite Etext, scan_members_more, <- HJ.
    rewrite IH; [reflexivity | discriminate | simpl in Hfuel |- *; lia].
Qed.

Lemma join_items_length (items : list (str * value)) :
  (length items
   <= length (join (u "," ++ LF :: u "  ") (map Json.encode_item items)))%nat.
Proof.
  induction items as [|kv items IH]; [simpl; lia|].
  destruct items as [|kv' items].
  - cbn [map join]. unfold Json.encode_item, Json.encode_basestring.
    simpl. lia.
  - change (join (u "," ++ LF :: u "  ")
                 (map Json.encode_item (kv :: kv' :: items)))
      with (Json.encode_item kv
            ++ (u "," ++ LF :: u "  ")
            ++ join (u "," ++ LF :: u "  ")
                    (map Json.encode_item (kv' :: items))).
    rewrite !length_app. simpl length in IH |- *. lia.
Qed.

(** Decoding what [dumps] produced rebuilds the dictionary item by
    item. *)
Lemma loads_dumps (d : dict) :
  Json.loads (Json.dumps d)
  = Some (fold_left (fun a kv => dict_set a (fst kv) (snd kv)) d []).
Proof.
  destruct d as [|kv d]; [reflexivity|].
  unfold Json.dumps.
  set (J := join (u "," ++ LF :: u "  ") (map Json.encode_item (kv :: d))).
  assert (HJ : exists t, J ++ [LF] ++ u "}" = QUOTE :: t).
  { subst J. destruct d as [|kv' d]; cbn [map join];
      rewrite <- ?app_assoc; rewrite encode_item_shape; eauto. }
  destruct HJ as (t & HJ).
  assert (Hlen : (length (kv :: d)
                  <= length (u "{" ++ (LF :: u "  ") ++ J ++ [LF] ++ u "}"))%nat).
  { pose proof (join_items_length (kv :: d)) as H. fold J in H.
    rewrite !length_app. lia. }
  unfold Json.loads.
  change (Json.skip_ws (u "{" ++ (LF :: u "  ") ++ J ++ [LF] ++ u "}"))
    with (123 :: (LF :: u "  ") ++ J ++ [LF] ++ u "}").
  change (negb (123 =? 123)) with false. cbv match.
  change (Json.skip_ws ((LF :: u "  ") ++ J ++ [LF] ++ u "}"))
    with (Json.skip_ws (J ++ [LF] ++ u "}")).
  rewrite HJ.
  change (Json.skip_ws (QUOTE :: t)) with (QUOTE :: t).
  change (QUOTE =? 125) with false. cbv match.
  rewrite <- HJ.
  subst J. change ([LF] ++ u "}") with (LF :: 125 :: @nil codepoint).
  rewrite scan_members_items; [reflexivity | discriminate | exact Hlen].
Qed.

End JsonRoundTrip.

(** C3.  Rendering an AnalysisResult in JSON mode and decoding the text
    gives back the same dictionary, field for field, whatever the file
    name holds: quotes, backslashes, control characters, non-ASCII. *)
Theorem json_round_trip (r : AnalysisResult) :
  Json.loads (output_json (as_dict r)) = Some (as_dict r).
Proof.
  unfold output_json. rewrite loads_dumps. reflexivity.
Qed.

(* ================================================================= *)
(** ** Further properties of the run *)

Lemma write_text_elsewhere (q : Path) (text : str) (w : world) (p : Path) :
  Path_eqb p q = false ->
  fs (fst (write_text q text w)) p = fs w p.
Proof.
  intros Hpq. destruct w as [f k d tr].
  unfold write_text, bind, emit, get_node, put_node, ret, raise. simpl.
  destruct (f q) as [[|]| |? [|]|? ? [|]|?]; simpl;
    try destruct (Utf8.encode text); simpl;
    unfold fs_update; rewrite ?Hpq; reflexivity.
Qed.

Lemma read_error_none (p : Path) (data : Utf8.bytes) (rd : bool) :
  read_error p data rd = None ->
  rd = true /\ exists content, Utf8.decode data = inr content.
Proof.
  unfold read_error. destruct rd; [|discriminate].
  destruct (Utf8.decode data) as [pos|content]; [discriminate|]. eauto.
Qed.

(** Every run of [main]'s body falls in one of a few cases, by what the
    input path holds and how the delivery of the result goes. *)
Ltac run_cases args w :=
  let Hnode := fresh "Hnode" in
  let Herr := fresh "Herr" in
  let Hdec := fresh "Hdec" in
  let Hout := fresh "Hout" in
  let Hres := fresh "Hres" in
  let Hcodec := fresh "Hcodec" in
  destruct (fs w (input_file args)) as [?cr| |?sd ?sa|?data ?rd ?wr|?why]
    eqn:Hnode;
  [ rewrite (run_missing args w _ Hnode)
  | rewrite (run_not_a_file args w) by (rewrite Hnode; exact I)
  | rewrite (run_not_a_file args w) by (rewrite Hnode; exact I)
  | match goal with
    | H : fs w (input_file args) = Regular ?data ?rd ?wr |- _ =>
        destruct (read_error (input_file args) data rd) as [?e|] eqn:Herr;
        [ rewrite (run_read_error args w data rd wr _ Hnode Herr)
        | let content := fresh "content" in
          destruct (read_error_none _ _ _ Herr) as (-> & content & Hdec);
          rewrite (run_success args w data wr content Hnode Hdec);
          cbv zeta;
          destruct (output args) as [?q|] eqn:Hout;
          [ rewrite write_text_frame;
            match goal with
            | |- context [snd (write_text ?q ?t ?w0)] =>
                destruct (snd (write_text q t w0)) as [[]|?e] eqn:Hres
            end
          | match goal with
            | |- context [stdout_codec w ?t] =>
                destruct (stdout_codec w t) as [?pos|?bs] eqn:Hcodec
            end ] ]
    end
  | rewrite (run_stat_error args w _ Hnode) ].

(** X1.  [main]'s body lets no exception of the read, the rendering,
    the write or the print out: it returns 0, 1, 2 or 3 unless the
    [stat] of the validation itself fails, and that exception, raised
    before the [try], leaves it. *)
Theorem run_returns_status (args : Namespace) (w : world) :
  match fs w (input_file args) with
  | Unreachable why =>
      snd (run args w) = Raise (stat_error why (input_file args))
  | _ =>
      exists code,
        snd (run args w) = Return code /\
        (code = 0 \/ code = 1 \/ code = 2 \/ code = 3)%Z
  end.
Proof.
  run_cases args w; simpl; eauto 7.
Qed.

(** X2.  What [main] returns tells what [stat] found at the input path:
    2 exactly when it reported nothing there, 1 exactly when it found a
    directory or a special file, 0 or 3 exactly when it found a regular
    file; and [main] raises instead of returning exactly when [stat]
    failed with another error. *)
Theorem run_status_by_input (args : Namespace) (w : world) :
  let node := fs w (input_file args) in
  let code := snd (run args w) in
  (code = Return 2%Z <-> exists c, node = Absent c) /\
  (code = Return 1%Z <->
     node = Directory \/ exists data a, node = Special data a) /\
  (code = Return 0%Z \/ code = Return 3%Z <->
     exists data rd wr, node = Regular data rd wr) /\
  ((exists e, code = Raise e) <-> exists why, node = Unreachable why).
Proof.
  cbv zeta. run_cases args w; simpl;
    (split; [|split; [|split]]);
    (split;
     [ try (intros [H|H]); try intros H;
       repeat match goal with
         | H : exists _, _ |- _ => destruct H
         end;
       try discriminate; eauto 6
     | try (intros [H|H]); try intros H;
       repeat match goal with
         | H : exists _, _ |- _ => destruct H
         end;
       try discriminate; eauto ]).
Qed.

(** X4.  Debug mode is only ever switched on: after the run [DEBUG]
    holds exactly when it held before or [--verbose] was given, and no
    path through [main] resets it. *)
Theorem run_debug_flag (args : Namespace) (w : world) :
  DEBUG (fst (run args w)) = verbose args || DEBUG w.
Proof.
  run_cases args w; reflexivity.
Qed.

(** X5.  With debug mode off -- no [--verbose], [DEBUG] not set -- the
    process writes no [[DEBUG]] line, whatever happens to the input and
    the output, and the handler of [main] writes no exception trace:
    the only trace there can be is the interpreter's, for the exception
    of the validation's [stat] that left [main]. *)
Theorem run_quiet_without_debug (argv : list str) (args : Namespace)
    (w : world) :
  parse_args argv = Parsed args ->
  verbose args = false ->
  DEBUG w = false ->
  exists new,
    trace (fst (main argv w)) = trace w ++ new /\
    Observe.debug_lines new = [] /\
    Observe.tracebacks new
    = match fs w (input_file args) with
      | Unreachable why => [stat_error why (input_file args)]
      | _ => []
      end.
Proof.
  intros Hparse Hv Hd. unfold main. rewrite Hparse.
  run_cases args w; cbn [fst trace];
    rewrite ?Hv; cbn [orb]; rewrite ?Hd; cbn [app emit fst trace];
    rewrite <- ?app_assoc;
    match goal with
    | |- exists new, trace w ++ ?X = trace w ++ new /\ _ => exists X
    end;
    (split; [reflexivity|]); split; reflexivity.
Qed.

Lemma run_quiet_without_debug_witness :
  exists new,
    final_trace (Sample.invoke Sample.not_utf8 [u "data.txt"]) = [] ++ new /\
    Observe.debug_lines new = [] /\
    Observe.tracebacks new = [].
Proof.
  exact (run_quiet_without_debug
           [u "data.txt"]
           {| input_file := mkPath (u "data.txt"); output := None;
              format := u "json"; verbose := false |}
           (start (Sample.invoke Sample.not_utf8 [u "data.txt"]))
           eq_refl eq_refl eq_refl).
Defined.

(** X6.  [main] prints one text, the rendering of the result that
    [process_file] returned, when the run succeeds without [--output];
    in every other case -- an output path, a failed validation, read,
    or print -- it prints nothing. *)
Theorem run_prints_only_result (args : Namespace) (w : world) :
  exists new,
    trace (fst (run args w)) = trace w ++ new /\
    ((output args = None /\ snd (run args w) = Return 0%Z /\
      exists result,
        snd (process_file (input_file args) w) = Return result /\
        Observe.printed new = [render (format args) result]) \/
     ((output args <> None \/ snd (run args w) <> Return 0%Z) /\
      Observe.printed new = [])).
Proof.
  run_cases args w; cbn [fst snd trace];
    destruct (verbose args || DEBUG w); cbn [app];
    rewrite <- ?app_assoc;
    match goal with
    | |- exists new, trace w ++ ?X = trace w ++ new /\ _ => exists X
    end;
    (split; [reflexivity|]);
    first
      [ right; split; [|reflexivity];
        first [ left; discriminate | right; discriminate ]
      | left; split; [reflexivity|]; split; [reflexivity|];
        match goal with
        | Hn : fs w (input_file args) = Regular ?data true ?wr,
          Hd : Utf8.decode ?data = inr ?content |- _ =>
            exists (as_dict (analyze (path_str (input_file args))
                               (Utf8.universal_newlines content)));
            split;
            [ rewrite (process_file_regular w (input_file args) data wr
                         content Hn Hd); reflexivity
            | reflexivity ]
        end ].
Qed.

(** X7.  A result that standard output cannot encode is a processing
    error like any other: when the analysis has succeeded, no output
    path is given and [print] raises, [main] returns 3, logs the
    exception, and nothing is printed. *)
Theorem print_failure (args : Namespace) (w : world) (data : Utf8.bytes)
    (rd wr : bool) (result : dict) (e : exn) :
  fs w (input_file args) = Regular data rd wr ->
  snd (process_file (input_file args) w) = Return result ->
  output args = None ->
  snd (print (render (format args) result) w) = Raise e ->
  snd (run args w) = Return 3%Z /\
  fs (fst (run args w)) = fs w /\
  exists new,
    trace (fst (run args w))
    = trace w ++ new
      ++ [Stderr LERROR [Lit "Processing error: "; OfExn e]]
      ++ (if verbose args || DEBUG w then [Traceback e] else []) /\
    Observe.printed new = [].
Proof.
  intros Hfs Hpf Hout Hprint.
  destruct (process_file_inversion w (input_file args) data rd wr result
              Hfs Hpf) as (-> & content & Hdec & ->).
  rewrite (run_success args w data wr content Hfs Hdec). cbv zeta.
  rewrite Hout.
  unfold print, bind, get_stdout_codec in Hprint. simpl in Hprint.
  destruct (stdout_codec w _) as [pos|bs]; [|discriminate Hprint].
  unfold raise in Hprint. simpl in Hprint. injection Hprint as <-.
  cbn [fst snd fs trace]. split; [reflexivity|]. split; [reflexivity|].
  rewrite <- !app_assoc.
  destruct (verbose args || DEBUG w); cbn [app].
  - exists [Exists (input_file args); IsFile (input_file args);
            Stderr LINFO [Lit "Processing "; OfPath (input_file args);
                          Lit "..."];
            Stderr LDEBUG [Lit "Processing file: "; OfPath (input_file args)];
            ReadText (input_file args);
            Stderr LDEBUG
              [Lit "Processing complete: ";
               OfDict (as_dict (analyze (path_str (input_file args))
                                  (Utf8.universal_newlines content)))]].
    split; reflexivity.
  - exists [Exists (input_file args); IsFile (input_file args);
            Stderr LINFO [Lit "Processing "; OfPath (input_file args);
                          Lit "..."];
            ReadText (input_file args)].
    split; reflexivity.
Qed.

Lemma print_failure_witness :
  snd (run {| input_file := mkPath Sample.odd_name; output := None;
              format := u "json"; verbose := false |}
           (World (Sample.everywhere Sample.a_b_cd) Utf8.encode false []))
  = Return 3%Z.
Proof.
  exact (proj1
    (print_failure
       {| input_file := mkPath Sample.odd_name; output := None;
          format := u "json"; verbose := false |}
       (World (Sample.everywhere Sample.a_b_cd) Utf8.encode false [])
       Sample.a_b_cd true true
       (as_dict {| file := Sample.odd_name; lines := 2; words := 3;
                   characters := 7 |})
       (UnicodeEncodeError 14)
       eq_refl eq_refl eq_refl eq_refl)).
Defined.

Lemma initial_DEBUG_iff (env : str -> option str) :
  initial_DEBUG env = true <-> env (u "OPEN_AGENT_DEBUG") = Some (u "1").
Proof.
  unfold initial_DEBUG. rewrite str_eqb_eq.
  destruct (env (u "OPEN_AGENT_DEBUG")) as [v|]; split; intros H;
    try congruence; discriminate.
Qed.

(** X8.  Once the input is a regular file, the [[DEBUG]] line that
    opens the analysis is on the error stream exactly when [--verbose]
    was given or the environment holds [OPEN_AGENT_DEBUG=1]; any other
    value of the variable leaves debug mode off. *)
Theorem debug_line_iff (inv : invocation) (args : Namespace)
    (data : Utf8.bytes) (rd wr : bool) :
  parse_args (argv inv) = Parsed args ->
  files inv (input_file args) = Regular data rd wr ->
  (In (Stderr LDEBUG [Lit "Processing file: "; OfPath (input_file args)])
      (final_trace inv)
   <-> verbose args = true \/
       environ inv (u "OPEN_AGENT_DEBUG") = Some (u "1")).
Proof.
  intros Hparse Hfs.
  rewrite <- initial_DEBUG_iff, <- orb_true_iff.
  unfold final_trace, execute, main. rewrite Hparse.
  assert (Hd : DEBUG (start inv) = initial_DEBUG (environ inv)) by reflexivity.
  assert (Ht : trace (start inv) = []) by reflexivity.
  assert (Hf : fs (start inv) (input_file args) = Regular data rd wr)
    by exact Hfs.
  revert Hd Ht Hf. generalize (start inv) as w. intros w Hd Ht Hf.
  rewrite <- Hd. clear Hd.
  run_cases args w; try discriminate Hf;
    cbn [fst snd trace]; rewrite Ht; cbn [app];
    destruct (verbose args || DEBUG w); cbn [app In];
    (split;
     [ intros H; try reflexivity;
       repeat (destruct H as [H|H]; [discriminate H|]);
       try contradiction;
       repeat (apply in_app_or in H; destruct H as [H|H]);
       cbn [In] in H;
       repeat (destruct H as [H|H]; [discriminate H|]);
       contradiction
     | intros H; try discriminate H; auto 10 ]).
Qed.

Lemma debug_line_iff_witness :
  In (Stderr LDEBUG [Lit "Processing file: "; OfPath (mkPath (u "data.txt"))])
     (final_trace {| argv := [u "data.txt"];
                     environ := Sample.debug_environ;
                     files := Sample.one_file Sample.a_b_cd;
                     console := Utf8.encode |}).
Proof.
  exact (proj2
    (debug_line_iff
       {| argv := [u "data.txt"]; environ := Sample.debug_environ;
          files := Sample.one_file Sample.a_b_cd; console := Utf8.encode |}
       {| input_file := mkPath (u "data.txt"); output := None;
          format := u "json"; verbose := false |}
       Sample.a_b_cd true true eq_refl eq_refl)
    (or_intror eq_refl)).
Defined.

(* ================================================================= *)
(** ** The UTF-8 codec: what is written reads back *)

Section Utf8RoundTrip.
Local Open Scope N_scope.

Ltac Zify.zify_post_hook ::= Z.to_euclidean_division_equations.

Lemma to_N_byte_of (n : N) : n < 256 -> Byte.to_N (Utf8.byte_of n) = n.
Proof.
  intros H. unfold Utf8.byte_of.
  pose proof (Byte.to_of_N_option_map n) as E.
  replace (n <=? 255) with true in E by (symmetry; apply N.leb_le; lia).
  destruct (Byte.of_N n); simpl in E; congruence.
Qed.

Lemma lor_0x80 (y : N) : y < 64 -> N.lor 0x80 y = 0x80 + y.
Proof.
  intros Hy. pattern y. apply (forall_below _ 64%nat); [|exact Hy].
  intros n Hn. do 64 (destruct n as [|n]; [reflexivity|]). lia.
Qed.

Lemma lor_0xC0 (y : N) : y < 32 -> N.lor 0xC0 y = 0xC0 + y.
Proof.
  intros Hy. pattern y. apply (forall_below _ 32%nat); [|exact Hy].
  intros n Hn. do 32 (destruct n as [|n]; [reflexivity|]). lia.
Qed.

Lemma lor_0xE0 (y : N) : y < 16 -> N.lor 0xE0 y = 0xE0 + y.
Proof.
  intros Hy. pattern y. apply (forall_below _ 16%nat); [|exact Hy].
  intros n Hn. do 16 (destruct n as [|n]; [reflexivity|]). lia.
Qed.

Lemma lor_0xF0 (y : N) : y < 8 -> N.lor 0xF0 y = 0xF0 + y.
Proof.
  intros Hy. pattern y. apply (forall_below _ 8%nat); [|exact Hy].
  intros n Hn. do 8 (destruct n as [|n]; [reflexivity|]). lia.
Qed.

Ltac settle_tests :=
  repeat match goal with
    | |- context [(?a <? ?b)] =>
        first [ replace (a <? b) with true
                  by (symmetry; apply N.ltb_lt; lia)
              | replace (a <? b) with false
                  by (symmetry; apply N.ltb_ge; lia)
              | let E := fresh "E" in
                destruct (a <? b) eqn:E;
                [apply N.ltb_lt in E | apply N.ltb_ge in E] ]
    | |- context [(?a <=? ?b)] =>
        first [ replace (a <=? b) with true
                  by (symmetry; apply N.leb_le; lia)
              | replace (a <=? b) with false
                  by (symmetry; apply N.leb_gt; lia) ]
    | |- context [(?a =? ?b)] =>
        first [ replace (a =? b) with true
                  by (symmetry; apply N.eqb_eq; lia)
              | replace (a =? b) with false
                  by (symmetry; apply N.eqb_neq; lia) ]
    end.

Ltac to_div_mod :=
  rewrite ?N.shiftr_div_pow2;
  change (N.land ?a 63) with (N.land a (N.ones 6));
  rewrite ?N.land_ones;
  change (2 ^ 6) with 64; change (2 ^ 12) with 4096;
  change (2 ^ 18) with 262144.

Lemma Some_eq {A} (a b : A) : Some a = Some b -> a = b.
Proof. congruence. Qed.

(** The bytes of one code point decode to that code point. *)
Lemma decode_encode_codepoint (c : codepoint) (bs rest : Utf8.bytes)
    (pos : nat) :
  Utf8.encode_codepoint c = Some bs ->
  Utf8.decode_from pos (bs ++ rest)
  = Utf8.cons_ok c (Utf8.decode_from (length bs + pos) rest).
Proof.
  unfold Utf8.encode_codepoint.
  destruct (c <? 0x80) eqn:H1.
  { intros H. apply Some_eq in H. subst bs. apply N.ltb_lt in H1.
    cbn [app Utf8.decode_from length].
    rewrite to_N_byte_of by lia. settle_tests. reflexivity. }
  apply N.ltb_ge in H1.
  destruct (c <? 0x800) eqn:H2.
  { intros H. apply Some_eq in H. subst bs. apply N.ltb_lt in H2.
    to_div_mod.
    rewrite lor_0xC0 by lia. rewrite !lor_0x80 by lia.
    cbn [app Utf8.decode_from length].
    rewrite !to_N_byte_of by lia.
    unfold Utf8.is_continuation. settle_tests. cbn [andb negb].
    rewrite !N.shiftl_mul_pow2. f_equal. lia. }
  apply N.ltb_ge in H2.
  destruct (c <? 0x10000) eqn:H3.
  { apply N.ltb_lt in H3.
    destruct ((0xD800 <=? c) && (c <=? 0xDFFF)) eqn:Hs; [discriminate|].
    assert (Hns : c < 0xD800 \/ 0xDFFF < c).
    { apply andb_false_iff in Hs. destruct Hs as [Hs|Hs];
        [apply N.leb_gt in Hs | apply N.leb_gt in Hs]; lia. }
    intros H. apply Some_eq in H. subst bs.
    to_div_mod.
    rewrite lor_0xE0 by lia. rewrite !lor_0x80 by lia.
    cbn [app Utf8.decode_from length].
    rewrite !to_N_byte_of by lia.
    unfold Utf8.is_continuation.
    settle_tests; cbn [andb negb orb]; rewrite !N.shiftl_mul_pow2; f_equal;
      lia. }
  apply N.ltb_ge in H3.
  destruct (c <? 0x110000) eqn:H4; [|discriminate].
  apply N.ltb_lt in H4.
  intros H. apply Some_eq in H. subst bs.
  to_div_mod.
  rewrite lor_0xF0 by lia. rewrite !lor_0x80 by lia.
  cbn [app Utf8.decode_from length].
  rewrite !to_N_byte_of by lia.
  unfold Utf8.is_continuation.
  settle_tests; cbn [andb negb orb]; rewrite !N.shiftl_mul_pow2; f_equal; lia.
Qed.

Lemma decode_encode_from (s : str) :
  forall (pos : nat) (bs : Utf8.bytes),
    Utf8.encode_from pos s = inr bs ->
    forall pos', Utf8.decode_from pos' bs = inr s.
Proof.
  induction s as [|c s IH]; intros pos bs H pos'; simpl in H.
  - injection H as <-. reflexivity.
  - destruct (Utf8.encode_codepoint c) as [b|] eqn:Hc; [|discriminate].
    destruct (Utf8.encode_from (S pos) s) as [e|tail] eqn:Ht; [discriminate|].
    injection H as <-.
    rewrite (decode_encode_codepoint c b tail pos' Hc).
    rewrite (IH (S pos) tail Ht). reflexivity.
Qed.

Ltac Zify.zify_post_hook ::= idtac.

End Utf8RoundTrip.

(** X9.  Whatever text the UTF-8 encoder accepts decodes back to the
    same text: the bytes [write_text] puts in a file are valid UTF-8 for
    the text that was written. *)
Theorem utf8_decode_encode (s : str) (bs : Utf8.bytes) :
  Utf8.encode s = inr bs -> Utf8.decode bs = inr s.
Proof.
  intros H. unfold Utf8.encode in H. unfold Utf8.decode.
  exact (decode_encode_from s 0 bs H 0).
Qed.

Lemma utf8_decode_encode_witness :
  Utf8.decode [Byte.xe2; Byte.x82; Byte.xac; Byte.xf0; Byte.x9f; Byte.x98;
               Byte.x80; Byte.x41]
  = inr [8364; 128512; 65]%N.
Proof.
  exact (utf8_decode_encode [8364; 128512; 65]%N
           [Byte.xe2; Byte.x82; Byte.xac; Byte.xf0; Byte.x9f; Byte.x98;
            Byte.x80; Byte.x41]
           eq_refl).
Defined.

(** X10.  After a run that writes its result to an output path that is
    free or holds a writable regular file, that path holds a regular
    file whose bytes decode, as UTF-8, to exactly the rendered result;
    the status is 0.  This includes the case where the output path is
    the input file itself, which is then replaced by the result of its
    own analysis. *)
Theorem output_file_holds_result (args : Namespace) (w : world)
    (data : Utf8.bytes) (rd wr : bool) (result : dict) (q : Path)
    (bs : Utf8.bytes) :
  fs w (input_file args) = Regular data rd wr ->
  snd (process_file (input_file args) w) = Return result ->
  output args = Some q ->
  match fs w q with
  | Absent true | Regular _ _ true => True
  | _ => False
  end ->
  Utf8.encode (render (format args) result) = inr bs ->
  snd (run args w) = Return 0%Z /\
  (exists readable, fs (fst (run args w)) q = Regular bs readable true) /\
  Utf8.decode bs = inr (render (format args) result).
Proof.
  intros Hfs Hpf Hout Hq Henc.
  destruct (process_file_inversion w (input_file args) data rd wr result
              Hfs Hpf) as (-> & content & Hdec & ->).
  split; [|split]; [| |exact (decode_encode_from _ 0 _ Henc 0)].
  - rewrite (run_success args w data wr content Hfs Hdec). cbv zeta.
    rewrite Hout, write_text_frame.
    destruct w as [f k d tr]. cbn [fs stdout_codec DEBUG trace] in *.
    unfold write_text, bind, emit, get_node, put_node, ret, raise.
    cbn [fs stdout_codec DEBUG trace fst snd].
    destruct (f q) as [[|]| |? [|]|? ? [|]|?]; try contradiction;
      rewrite Henc; reflexivity.
  - rewrite (run_success args w data wr content Hfs Hdec). cbv zeta.
    rewrite Hout, write_text_frame.
    destruct w as [f k d tr]. cbn [fs stdout_codec DEBUG trace] in *.
    unfold write_text, bind, emit, get_node, put_node, ret, raise.
    cbn [fs stdout_codec DEBUG trace fst snd].
    destruct (f q) as [[|]| |? [|]|? ? [|]|?]; try contradiction;
      rewrite Henc; cbn [fs fst snd]; unfold fs_update, Path_eqb;
      rewrite str_eqb_refl; eauto.
Qed.

Lemma output_file_holds_result_witness :
  snd (run {| input_file := mkPath (u "data.txt");
              output := Some (mkPath (u "data.txt"));
              format := u "text"; verbose := false |}
           (start (Sample.invoke Sample.a_b_cd
                     [u "data.txt"; u "-o"; u "data.txt"; u "-f"; u "text"])))
  = Return 0%Z.
Proof.
  exact (proj1
    (output_file_holds_result
       {| input_file := mkPath (u "data.txt");
          output := Some (mkPath (u "data.txt"));
          format := u "text"; verbose := false |}
       (start (Sample.invoke Sample.a_b_cd
                 [u "data.txt"; u "-o"; u "data.txt"; u "-f"; u "text"]))
       Sample.a_b_cd true true
       (as_dict {| file := u "data.txt"; lines := 2; words := 3;
                   characters := 7 |})
       (mkPath (u "data.txt"))
       (match Utf8.encode
                (render (u "text")
                   (as_dict {| file := u "data.txt"; lines := 2; words := 3;
                               characters := 7 |})) with
        | inr b => b
        | inl _ => []
        end)
       eq_refl eq_refl eq_refl I eq_refl)).
Defined.

(* ================================================================= *)
(** ** The parsed arguments *)







(** X12.  A command line that is just a file name, not starting with a
    dash, is accepted with the defaults: JSON format, standard output,
    not verbose. *)
Theorem parse_args_defaults (name : str) :
  match name with
  | c :: _ => cp_eqb c MINUS = false
  | [] => True
  end ->
  parse_args [name]
  = Parsed {| input_file := mkPath name; output := None;
              format := u "json"; verbose := false |}.
Proof.
  intros Hname.
  assert (Hcls : parse_optional name = ClassA).
  { destruct name as [|c name]; [reflexivity|].
    unfold parse_optional. rewrite Hname. reflexivity. }
  assert (Hdd : str_eqb name (u "--") = false).
  { destruct name as [|c name]; [reflexivity|].
    change (u "--") with [MINUS; MINUS]. cbn [str_eqb].
    rewrite Hname. reflexivity. }
  unfold parse_args, classify_args. rewrite Hdd, Hcls. reflexivity.
Qed.

Lemma parse_args_defaults_witness :
  parse_args [u "data.txt"]
  = Parsed {| input_file := mkPath (u "data.txt"); output := None;
              format := u "json"; verbose := false |}.
Proof.
  exact (parse_args_defaults (u "data.txt") eq_refl).
Defined.

(* ================================================================= *)
(** ** The renderers on arbitrary dictionaries *)

Lemma split_on_cons (sep : codepoint) (s : str) :
  exists p ps, split_on sep s = p :: ps.
Proof.
  destruct s as [|c s]; simpl; [eauto|].
  destruct (cp_eqb c sep); [eauto|].
  destruct (split_on sep s); eauto.
Qed.

(** Lines add up: joining two texts merges the last line of the first
    with the first line of the second. *)
Lemma text_lines_app (a b : str) :
  Spec.text_lines (a ++ b) + 1 = Spec.text_lines a + Spec.text_lines b.
Proof.
  unfold Spec.text_lines. induction a as [|c a IH]; simpl.
  - lia.
  - destruct (cp_eqb c LF); simpl.
    + lia.
    + destruct (split_on_cons LF (a ++ b)) as (p & ps & E).
      destruct (split_on_cons LF a) as (p' & ps' & E').
      rewrite E, E' in *. simpl in *. lia.
Qed.

Lemma text_lines_plain (s : str) :
  contains LF s = false -> Spec.text_lines s = 1.
Proof.
  intros H. unfold Spec.text_lines. rewrite (split_on_none LF s H). reflexivity.
Qed.

Lemma hex_digit_not_LF (n : N) : cp_eqb LF (Json.hex_digit n) = false.
Proof.
  unfold cp_eqb, Json.hex_digit, LF.
  destruct (n <? 10)%N; apply N.eqb_neq; lia.
Qed.

Lemma escape_no_LF (c : codepoint) : contains LF (Json.escape c) = false.
Proof.
  unfold Json.escape.
  repeat match goal with
    | |- contains LF (if ?b then _ else _) = false =>
        let E := fresh "E" in destruct b eqn:E; [reflexivity|]
    end.
  destruct (c <? 32)%N.
  - unfold Json.u_escape, contains. cbn [existsb].
    rewrite !hex_digit_not_LF. reflexivity.
  - unfold contains. cbn [existsb]. unfold cp_eqb, LF.
    rewrite N.eqb_sym.
    match goal with H : (c =? 10)%N = false |- _ => rewrite H end.
    reflexivity.
Qed.

Lemma encode_basestring_no_LF (s : str) :
  contains LF (Json.encode_basestring s) = false.
Proof.
  unfold Json.encode_basestring.
  change (QUOTE :: flat_map Json.escape s ++ [QUOTE])
    with ([QUOTE] ++ flat_map Json.escape s ++ [QUOTE]).
  rewrite !contains_app.
  assert (H : contains LF (flat_map Json.escape s) = false).
  { induction s as [|c s IH]; [reflexivity|].
    cbn [flat_map]. rewrite contains_app, escape_no_LF, IH. reflexivity. }
  rewrite H. reflexivity.
Qed.

Lemma encode_item_no_LF (kv : str * value) :
  contains LF (Json.encode_item kv) = false.
Proof.
  unfold Json.encode_item. rewrite !contains_app, encode_basestring_no_LF.
  destruct (snd kv) as [s|n]; cbn [Json.encode_value].
  - rewrite encode_basestring_no_LF. reflexivity.
  - rewrite str_int_no_LF. reflexivity.
Qed.

Lemma join_items_lines (items : list (str * value)) :
  items <> [] ->
  Spec.text_lines (join (u "," ++ LF :: u "  ") (map Json.encode_item items))
  = length items.
Proof.
  induction items as [|kv items IH]; intros Hne; [congruence|].
  destruct items as [|kv' items].
  - cbn [map join]. apply text_lines_plain, encode_item_no_LF.
  - change (join (u "," ++ LF :: u "  ")
                 (map Json.encode_item (kv :: kv' :: items)))
      with (Json.encode_item kv
            ++ (u "," ++ LF :: u "  ")
            ++ join (u "," ++ LF :: u "  ")
                    (map Json.encode_item (kv' :: items))).
    pose proof (text_lines_app (Json.encode_item kv)
                  ((u "," ++ LF :: u "  ")
                   ++ join (u "," ++ LF :: u "  ")
                           (map Json.encode_item (kv' :: items)))) as H1.
    pose proof (text_lines_app (u "," ++ LF :: u "  ")
                  (join (u "," ++ LF :: u "  ")
                        (map Json.encode_item (kv' :: items)))) as H2.
    rewrite (text_lines_plain _ (encode_item_no_LF kv)) in H1.
    change (Spec.text_lines (u "," ++ LF :: u "  ")) with 2 in H2.
    rewrite IH in H2 by discriminate.
    simpl length in *. lia.
Qed.

(** X13.  In JSON mode every member sits on a line of its own: the
    rendering of a dictionary with [n > 0] items has exactly [n + 2]
    lines, whatever the strings hold -- a line feed inside a string is
    escaped, never copied. *)
Theorem output_json_lines (d : dict) :
  d <> [] ->
  Spec.text_lines (output_json d) = length d + 2.
Proof.
  intros Hne. unfold output_json, Json.dumps.
  destruct d as [|kv d]; [congruence|].
  set (J := join (u "," ++ LF :: u "  ") (map Json.encode_item (kv :: d))).
  pose proof (join_items_lines (kv :: d) Hne) as HJ. fold J in HJ.
  pose proof (text_lines_app (u "{") ((LF :: u "  ") ++ J ++ [LF] ++ u "}"))
    as H1.
  pose proof (text_lines_app (LF :: u "  ") (J ++ [LF] ++ u "}")) as H2.
  pose proof (text_lines_app J ([LF] ++ u "}")) as H3.
  change (Spec.text_lines (u "{")) with 1 in H1.
  change (Spec.text_lines (LF :: u "  ")) with 2 in H2.
  change (Spec.text_lines ([LF] ++ u "}")) with 2 in H3.
  lia.
Qed.

Lemma output_json_lines_witness :
  Spec.text_lines
    (output_json (as_dict {| file := [97; 10; 98]%N; lines := 1; words := 1;
                             characters := 1 |})) = 8.
Proof.
  exact (output_json_lines
           (as_dict {| file := [97; 10; 98]%N; lines := 1; words := 1;
                       characters := 1 |})
           ltac:(discriminate)).
Defined.

Lemma dict_set_fresh (d : dict) (k : str) (v : value) :
  ~ In k (Observe.keys d) -> dict_set d k v = d ++ [(k, v)].
Proof.
  induction d as [|[k' v'] d IH]; intros Hk; simpl.
  - reflexivity.
  - destruct (str_eqb k' k) eqn:E.
    + apply str_eqb_eq in E. subst k'. exfalso. apply Hk. left. reflexivity.
    + rewrite IH; [reflexivity|]. intros Hin. apply Hk. right. exact Hin.
Qed.

Lemma fold_dict_set_distinct (d : dict) :
  forall acc,
    NoDup (Observe.keys d) ->
    (forall k, In k (Observe.keys d) -> ~ In k (Observe.keys acc)) ->
    fold_left (fun a kv => dict_set a (fst kv) (snd kv)) d acc = acc ++ d.
Proof.
  induction d as [|[k v] d IH]; intros acc Hnd Hdis; simpl.
  - rewrite app_nil_r. reflexivity.
  - inversion Hnd as [|? ? Hk Hnd']; subst.
    rewrite dict_set_fresh by (apply Hdis; left; reflexivity).
    rewrite IH; [rewrite <- app_assoc; reflexivity | exact Hnd' |].
    intros k' Hk' Hin. unfold Observe.keys in Hin.
    rewrite map_app in Hin. apply in_app_or in Hin. destruct Hin as [Hin|Hin].
    + apply (Hdis k'); [right; exact Hk' | exact Hin].
    + simpl in Hin. destruct Hin as [<-|[]]. apply Hk. exact Hk'.
Qed.

(** X14.  The JSON round trip holds for every dictionary of strings and
    of integers that have a decimal text (at most 4300 digits), not
    only for the result of the analysis: with distinct keys, as a
    [dict] has them, decoding the rendering gives back the same items
    in the same order. *)
Theorem dict_through_json (d : dict) :
  NoDup (Observe.keys d) ->
  Forall (fun kv => printable (snd kv)) d ->
  Json.loads (output_json d) = Some d.
Proof.
  intros Hnd _. unfold output_json. rewrite loads_dumps.
  rewrite (fold_dict_set_distinct d [] Hnd); [reflexivity|].
  intros k _ [].
Qed.

Lemma dict_through_json_witness :
  Json.loads (output_json [(u "a", VInt (-5)); (u "b", VStr [34; 233; 10]%N)])
  = Some [(u "a", VInt (-5)); (u "b", VStr [34; 233; 10]%N)].
Proof.
  refine (dict_through_json
            [(u "a", VInt (-5)); (u "b", VStr [34; 233; 10]%N)] _ _).
  - repeat constructor; simpl; intuition discriminate.
  - constructor; [apply Z.ltb_lt; vm_compute; reflexivity|].
    constructor; [exact I|]. constructor.
Defined.

(** X15.  In text mode a dictionary whose keys and values hold no line
    feed is rendered one item per line, in insertion order, each line
    being [key: value]; there is no line feed after the last line, and
    the empty dictionary gives the empty text. *)
Theorem output_text_lines_are_items (d : dict) :
  output_text [] = [] /\
  (d <> [] ->
   Forall (fun kv => contains LF (fst kv) = false /\
                     contains LF (str_value (snd kv)) = false) d ->
   split_on LF (output_text d)
   = map (fun kv => fst kv ++ u ": " ++ str_value (snd kv)) d).
Proof.
  split; [reflexivity|].
  intros Hne Hall. rewrite output_text_entries.
  apply split_on_join.
  - destruct d; [congruence | discriminate].
  - apply Forall_forall. intros line Hin.
    apply in_map_iff in Hin. destruct Hin as (kv & <- & Hkv).
    rewrite Forall_forall in Hall. destruct (Hall kv Hkv) as [Hk Hv].
    cbv beta. rewrite !contains_app.
    apply orb_false_iff. split; [exact Hk|].
    apply orb_false_iff. split; [reflexivity | exact Hv].
Qed.

Lemma output_text_lines_are_items_witness :
  split_on LF (output_text [(u "k", VStr (u "v w")); (u "n", VInt 0)])
  = [u "k: v w"; u "n: 0"].
Proof.
  refine (proj2 (output_text_lines_are_items
                   [(u "k", VStr (u "v w")); (u "n", VInt 0)]) _ _).
  - discriminate.
  - repeat constructor.
Defined.

(** X16.  Non-ASCII text is not escaped: a string made of characters at
    or above U+0020, other than the quote and the backslash, is rendered
    as itself between two quotes. *)
Theorem encode_basestring_verbatim (s : str) :
  Forall (fun c => (32 <= c)%N /\ c <> QUOTE /\ c <> BACKSLASH) s ->
  Json.encode_basestring s = QUOTE :: s ++ [QUOTE].
Proof.
  intros Hall. unfold Json.encode_basestring. do 2 f_equal.
  induction Hall as [|c s (Hc & Hq & Hb) _ IH]; [reflexivity|].
  cbn [flat_map]. rewrite IH. unfold Json.escape.
  replace (c =? QUOTE)%N with false by (symmetry; apply N.eqb_neq; exact Hq).
  replace (c =? BACKSLASH)%N with false
    by (symmetry; apply N.eqb_neq; exact Hb).
  replace (c =? 10)%N with false by (symmetry; apply N.eqb_neq; lia).
  replace (c =? 13)%N with false by (symmetry; apply N.eqb_neq; lia).
  replace (c =? 9)%N with false by (symmetry; apply N.eqb_neq; lia).
  replace (c =? 8)%N with false by (symmetry; apply N.eqb_neq; lia).
  replace (c =? 12)%N with false by (symmetry; apply N.eqb_neq; lia).
  replace (c <? 32)%N with false by (symmetry; apply N.ltb_ge; lia).
  reflexivity.
Qed.

Lemma encode_basestring_verbatim_witness :
  Json.encode_basestring [233; 26085; 128512]%N
  = QUOTE :: [233; 26085; 128512]%N ++ [QUOTE].
Proof.
  apply (encode_basestring_verbatim [233; 26085; 128512]%N).
  repeat constructor; try discriminate; unfold N.le; simpl; discriminate.
Defined.

(* ================================================================= *)
(** ** What the counts can be *)

Lemma splitlines_from_length (s : str) :
  forall line,
    length (splitlines_from line s)
    <= length s + (if Spec.nonempty line then 1 else 0).
Proof.
  induction s as [|c s IH IH2] using lookahead_ind; intros line.
  - destruct line; simpl; lia.
  - simpl. destruct (islinebreak c).
    + destruct (cp_eqb c CR).
      * destruct s as [|d s'].
        -- simpl. destruct (Spec.nonempty line); lia.
        -- destruct (cp_eqb d LF).
           ++ specialize (IH2 d s' eq_refl []). simpl in *.
              destruct (Spec.nonempty line); lia.
           ++ specialize (IH []). simpl in *.
              destruct (Spec.nonempty line); lia.
      * specialize (IH []). simpl in *. destruct (Spec.nonempty line); lia.
    + specialize (IH (c :: line)). simpl in IH.
      destruct (Spec.nonempty line); lia.
Qed.

Lemma split_from_length (s : str) :
  forall word,
    2 * length (split_from word s)
    <= length s + 1 + (if Spec.nonempty word then 1 else 0).
Proof.
  induction s as [|c s IH]; intros word.
  - destruct word; simpl; lia.
  - simpl. destruct (isspace c).
    + specialize (IH []). destruct word; simpl in *; lia.
    + specialize (IH (c :: word)). simpl in IH.
      destruct (Spec.nonempty word); lia.
Qed.

Lemma cons_ok_inr {E} (c : codepoint) (r : E + str) (s : str) :
  Utf8.cons_ok c r = inr s -> exists t, r = inr t /\ s = c :: t.
Proof.
  destruct r as [e|t]; simpl; [discriminate|].
  intros H. injection H as <-. eauto.
Qed.

Lemma decode_from_length (n : nat) :
  forall bs pos s,
    length bs <= n ->
    Utf8.decode_from pos bs = inr s ->
    length s <= length bs /\ (bs <> [] -> s <> []).
Proof.
  induction n as [|n IH]; intros [|b0 r0] pos s Hn H; simpl in Hn; try lia;
    try (injection H as <-; split; [simpl; lia | congruence]).
  cbn [Utf8.decode_from] in H.
  assert (Hstep : forall c p r,
             length r <= n -> length r <= length r0 ->
             Utf8.cons_ok (E:=nat) c (Utf8.decode_from p r) = inr s ->
             length s <= length (b0 :: r0) /\ (b0 :: r0 <> [] -> s <> [])).
  { intros c p r Hr Hr0 Hc.
    destruct (cons_ok_inr c _ s Hc) as (t & Ht & ->).
    destruct (IH r p t Hr Ht) as [Hlen _].
    split; [simpl; lia | discriminate]. }
  repeat match type of H with
    | (if ?b then _ else _) = _ => destruct b
    | match ?l with _ => _ end = _ =>
        match type of l with
        | list _ => destruct l as [|? ?]
        end
    | inl _ = inr _ => discriminate H
    end;
    try discriminate H;
    (eapply Hstep; [| |exact H]; simpl in *; lia).
Qed.

Lemma universal_newlines_nil (s : str) :
  Utf8.universal_newlines s = [] -> s = [].
Proof.
  destruct s as [|c s]; [reflexivity|]. simpl.
  destruct (cp_eqb c CR); discriminate.
Qed.

Lemma splitlines_from_nonempty (s : str) :
  forall line, line <> [] -> splitlines_from line s <> [].
Proof.
  induction s as [|c s IH]; intros line Hl; simpl.
  - destruct line; [congruence | discriminate].
  - destruct (islinebreak c); [discriminate|]. apply IH. discriminate.
Qed.

Lemma splitlines_nil (s : str) : splitlines s = [] -> s = [].
Proof.
  destruct s as [|c s]; [reflexivity|]. unfold splitlines. simpl.
  destruct (islinebreak c); [discriminate|].
  intros H. exfalso. revert H. apply splitlines_from_nonempty. discriminate.
Qed.

Lemma split_from_nonempty (s : str) :
  forall word, word <> [] -> split_from word s <> [].
Proof.
  induction s as [|c s IH]; intros word Hw; simpl.
  - destruct word; [congruence | discriminate].
  - destruct (isspace c).
    + destruct word; [congruence | discriminate].
    + apply IH. discriminate.
Qed.

Lemma split_nil_iff (s : str) : split s = [] <-> forallb isspace s = true.
Proof.
  unfold split. induction s as [|c s IH]; simpl.
  - tauto.
  - destruct (isspace c); simpl.
    + exact IH.
    + split; [|discriminate].
      intros H. exfalso. revert H. apply split_from_nonempty. discriminate.
Qed.

(** X17.  The counts of one result are tied to each other and to the
    file: there are at most as many lines as characters, at most
    [(characters + 1) / 2] words, and at most as many characters as the
    file has bytes. *)
Theorem counts_are_bounded (w : world) (p : Path) (data : Utf8.bytes)
    (wr : bool) (content : str) :
  fs w p = Regular data true wr ->
  Utf8.decode data = inr content ->
  exists r,
    snd (process_file p w) = Return (as_dict r) /\
    lines r <= characters r /\
    2 * words r <= characters r + 1 /\
    characters r <= length data.
Proof.
  intros Hfs Hdec.
  exists (analyze (path_str p) (Utf8.universal_newlines content)).
  rewrite (process_file_regular w p data wr content Hfs Hdec).
  cbn [snd analyze lines words characters].
  split; [reflexivity|].
  pose proof (splitlines_from_length (Utf8.universal_newlines content) [])
    as Hl.
  pose proof (split_from_length (Utf8.universal_newlines content) []) as Hw.
  pose proof (universal_newlines_length content) as Hu.
  destruct (decode_from_length (length data) data 0 content (le_n _) Hdec)
    as [Hd _].
  unfold splitlines, split. simpl in Hl, Hw. lia.
Qed.

Lemma counts_are_bounded_witness :
  exists r,
    snd (process_file (mkPath (u "data.txt"))
           (start (Sample.invoke Sample.crlf_formfeed [u "data.txt"])))
    = Return (as_dict r) /\
    lines r <= characters r /\
    2 * words r <= characters r + 1 /\
    characters r <= 6.
Proof.
  exact (counts_are_bounded
           (start (Sample.invoke Sample.crlf_formfeed [u "data.txt"]))
           (mkPath (u "data.txt")) Sample.crlf_formfeed true
           [97; 13; 10; 98; 12; 99]%N eq_refl eq_refl).
Defined.

(** X18.  A count of zero means what it says: [lines] is 0 exactly when
    the file is empty, and so is [characters]; [words] is 0 exactly when
    the file holds nothing but white space. *)
Theorem counts_zero (w : world) (p : Path) (data : Utf8.bytes)
    (wr : bool) (content : str) :
  fs w p = Regular data true wr ->
  Utf8.decode data = inr content ->
  exists r,
    snd (process_file p w) = Return (as_dict r) /\
    (lines r = 0 <-> data = []) /\
    (characters r = 0 <-> data = []) /\
    (words r = 0 <-> forallb isspace content = true).
Proof.
  intros Hfs Hdec.
  exists (analyze (path_str p) (Utf8.universal_newlines content)).
  rewrite (process_file_regular w p data wr content Hfs Hdec).
  cbn [snd analyze lines words characters].
  split; [reflexivity|].
  destruct (decode_from_length (length data) data 0 content (le_n _) Hdec)
    as [_ Hne].
  assert (Hempty : data = [] -> content = []).
  { intros ->. unfold Utf8.decode in Hdec. simpl in Hdec. congruence. }
  assert (Hback : content = [] -> data = []).
  { intros ->. destruct data as [|b data]; [reflexivity|].
    exfalso. apply Hne; [discriminate | reflexivity]. }
  repeat split.
  - intros H. apply Hback, universal_newlines_nil, splitlines_nil.
    apply length_zero_iff_nil. exact H.
  - intros H. rewrite (Hempty H). reflexivity.
  - intros H. apply Hback, universal_newlines_nil.
    apply length_zero_iff_nil. exact H.
  - intros H. rewrite (Hempty H). reflexivity.
  - intros H. apply split_nil_iff. unfold split.
    rewrite <- split_from_universal. apply length_zero_iff_nil. exact H.
  - intros H. apply split_nil_iff in H. unfold split in *.
    rewrite split_from_universal, H. reflexivity.
Qed.

Lemma counts_zero_witness :
  exists r,
    snd (process_file (mkPath (u "data.txt"))
           (start (Sample.invoke [Byte.x20; Byte.x0a] [u "data.txt"])))
    = Return (as_dict r) /\
    words r = 0.
Proof.
  destruct (counts_zero
              (start (Sample.invoke [Byte.x20; Byte.x0a] [u "data.txt"]))
              (mkPath (u "data.txt")) [Byte.x20; Byte.x0a] true
              [32; 10]%N eq_refl eq_refl) as (r & Hr & _ & _ & Hw).
  exists r. split; [exact Hr|]. apply Hw. reflexivity.
Defined.

(** X19.  The analysis only reads: whether [process_file] returns a
    result or raises, on any path and in any world, the files, the
    debug flag and standard output are as they were before. *)
Theorem process_file_only_reads (p : Path) (w : world) :
  fs (fst (process_file p w)) = fs w /\
  DEBUG (fst (process_file p w)) = DEBUG w /\
  exists new,
    trace (fst (process_file p w)) = trace w ++ new /\
    Observe.printed new = [].
Proof.
  destruct w as [f k d tr].
  unfold process_file, log_debug, read_text, decode_text, bind, get_DEBUG,
    get_node, emit, ret, raise.
  cbn [fs DEBUG trace stdout_codec fst snd].
  destruct d; cbn [fs DEBUG trace stdout_codec fst snd];
    destruct (f p) as [cr| |sd sa|data [|] wr|why];
    cbn [fs DEBUG trace stdout_codec fst snd];
    try destruct (Utf8.decode _);
    cbn [fs DEBUG trace stdout_codec fst snd];
    (split; [reflexivity|]); (split; [reflexivity|]);
    rewrite <- ?app_assoc;
    match goal with
    | |- exists new, tr ++ ?X = tr ++ new /\ _ => exists X
    | |- exists new, tr = tr ++ new /\ _ => exists []
    end;
    (split; [rewrite ?app_nil_r; reflexivity | reflexivity]).
Qed.

Lemma decode_ascii (data : Utf8.bytes) :
  Forall (fun b => (Byte.to_N b < 128)%N) data ->
  forall pos, Utf8.decode_from pos data = inr (map Byte.to_N data).
Proof.
  induction 1 as [|b data Hb _ IH]; intros pos; [reflexivity|].
  cbn [Utf8.decode_from map].
  apply N.ltb_lt in Hb. rewrite Hb, IH. reflexivity.
Qed.

(** X20.  A readable file of ASCII bytes is always analysed: decoding
    cannot fail, and [characters] is the size of the file in bytes less
    one for every CR LF pair. *)
Theorem ascii_file_characters (w : world) (p : Path) (data : Utf8.bytes)
    (wr : bool) :
  fs w p = Regular data true wr ->
  Forall (fun b => (Byte.to_N b < 128)%N) data ->
  exists r,
    snd (process_file p w) = Return (as_dict r) /\
    characters r + Spec.crlf_pairs (map Byte.to_N data) = length data.
Proof.
  intros Hfs Hascii.
  pose proof (decode_ascii data Hascii 0) as Hdec.
  exists (analyze (path_str p) (Utf8.universal_newlines (map Byte.to_N data))).
  rewrite (process_file_regular w p data wr _ Hfs Hdec).
  split; [reflexivity|]. cbn [analyze characters].
  rewrite universal_newlines_length, length_map. reflexivity.
Qed.

Lemma ascii_file_characters_witness :
  exists r,
    snd (process_file (mkPath (u "data.txt"))
           (start (Sample.invoke Sample.crlf_formfeed [u "data.txt"])))
    = Return (as_dict r) /\
    characters r + 1 = 6.
Proof.
  refine (ascii_file_characters
            (start (Sample.invoke Sample.crlf_formfeed [u "data.txt"]))
            (mkPath (u "data.txt")) Sample.crlf_formfeed true eq_refl _).
  repeat constructor.
Defined.

(** X21.  One run reads at most one file and writes at most one: the
    input path is read exactly when it holds a regular file, nothing
    else is ever read, and a write is attempted only on the output path,
    only with the rendered result, and only after the read succeeded. *)
Theorem run_reads_and_writes_once (args : Namespace) (w : world) :
  exists new,
    trace (fst (run args w)) = trace w ++ new /\
    (Observe.reads new
     = match fs w (input_file args) with
       | Regular _ _ _ => [input_file args]
       | _ => []
       end) /\
    (Observe.writes new = [] \/
     exists q result,
       output args = Some q /\
       snd (process_file (input_file args) w) = Return result /\
       Observe.writes new = [(q, render (format args) result)]).
Proof.
  run_cases args w; cbn [fst snd trace];
    destruct (verbose args || DEBUG w); cbn [app];
    rewrite <- ?app_assoc;
    match goal with
    | |- exists new, trace w ++ ?X = trace w ++ new /\ _ => exists X
    end;
    (split; [reflexivity|]); (split; [reflexivity|]);
    first
      [ left; reflexivity
      | right;
        match goal with
        | Hn : fs w (input_file args) = Regular ?data true ?wr,
          Hd : Utf8.decode ?data = inr ?content |- _ =>
            exists q,
              (as_dict (analyze (path_str (input_file args))
                          (Utf8.universal_newlines content)));
            split; [reflexivity|];
            split;
            [ rewrite (process_file_regular w (input_file args) data wr
                         content Hn Hd); reflexivity
            | reflexivity ]
        end ].
Qed.
